(** * Verification of the optical-flow training/inference orchestrator

    A shallow embedding of [src/main.py]: the seeding routine [set_seed], the
    end-point-error loss [compute_epe_error], the epoch loop, the checkpoint
    save / reload, the inference pass and the submission writer of [main].

    Numbers are IEEE-754 values of the Standard Library's [SpecFloat]:
    tensor elements are binary32 ([torch.float32], the default dtype),
    Python floats are binary64.  Tensors are a shape together with the
    row-major list of their elements, as a contiguous [torch.Tensor] is.
    The tensor library's reductions are modelled as left-to-right
    accumulation in the element format. *)

From Stdlib Require Import ZArith List Lia Bool Ascii String.
From Stdlib Require Import Floats.SpecFloat.
From stdpp Require Import gmap strings list.

(** ** Floating-point scalars *)

Module F32.
Definition prec : Z := 24%Z.
Definition emax : Z := 128%Z.

Definition add : spec_float -> spec_float -> spec_float := SFadd prec emax.
Definition sub : spec_float -> spec_float -> spec_float := SFsub prec emax.
Definition mul : spec_float -> spec_float -> spec_float := SFmul prec emax.
Definition div : spec_float -> spec_float -> spec_float := SFdiv prec emax.
Definition sqrt : spec_float -> spec_float := SFsqrt prec emax.
Definition of_nat (n : nat) : spec_float :=
  binary_normalize prec emax (Z.of_nat n) 0%Z false.
Definition zero : spec_float := S754_zero false.
End F32.

Module F64.
Definition prec : Z := 53%Z.
Definition emax : Z := 1024%Z.

Definition add : spec_float -> spec_float -> spec_float := SFadd prec emax.
Definition div : spec_float -> spec_float -> spec_float := SFdiv prec emax.
Definition of_nat (n : nat) : spec_float :=
  binary_normalize prec emax (Z.of_nat n) 0%Z false.
Definition of_Z (z : Z) : spec_float :=
  binary_normalize prec emax z 0%Z false.
Definition zero : spec_float := S754_zero false.

(** Widening of a binary32 value to a Python float: exact. *)
Definition of_f32 (x : spec_float) : spec_float :=
  match x with
  | S754_finite s m e => binary_round prec emax s m e
  | _ => x
  end.
End F64.

(** Classification of floats. [sign_clear] holds of [+0], of the positive
    finite values and of [+inf]. *)
Definition is_nan (x : spec_float) : bool :=
  match x with S754_nan => true | _ => false end.

Definition is_finite (x : spec_float) : bool :=
  match x with S754_zero _ | S754_finite _ _ _ => true | _ => false end.

Definition sign_clear (x : spec_float) : bool :=
  match x with
  | S754_zero s => negb s
  | S754_infinity s => negb s
  | S754_finite s _ _ => negb s
  | S754_nan => false
  end.

(** ** Exceptions raised by the modelled code *)

Inductive exn : Type :=
  | ShapeMismatch      (* RuntimeError: sizes must match at a non-singleton dimension *)
  | DimOutOfRange      (* IndexError: dimension out of range *)
  | CatMismatch        (* RuntimeError of torch.cat *)
  | ItemError          (* tensor with several elements converted to a scalar *)
  | ZeroDivisionError
  | ValueError
  | FileNotFoundError
  | StateMismatch.     (* load_state_dict, strict *)

Definition result (A : Type) : Type := exn + A.

Definition is_ok {A} (r : result A) : bool :=
  match r with inr _ => true | inl _ => false end.

Definition rbind {A B} (r : result A) (k : A -> result B) : result B :=
  match r with inl e => inl e | inr a => k a end.

(** ** Tensors *)

Record Tensor : Type := mkTensor { shape : list nat; data : list spec_float }.

Definition numel (s : list nat) : nat := fold_right Nat.mul 1 s.

Definition wf (t : Tensor) : Prop := length (data t) = numel (shape t).

Fixpoint ravel (s idx : list nat) : nat :=
  match s, idx with
  | _ :: s', i :: idx' => i * numel s' + ravel s' idx'
  | _, _ => 0
  end.

Fixpoint unravel (s : list nat) (i : nat) : list nat :=
  match s with
  | [] => []
  | _ :: s' => (i / numel s') :: unravel s' (i mod numel s')
  end.

Definition get (t : Tensor) (idx : list nat) : spec_float :=
  nth (ravel (shape t) idx) (data t) S754_nan.

(** [t[i]] along the first dimension, as a list of elements. *)
Definition row (t : Tensor) (i : nat) : list spec_float :=
  let n := numel (tail (shape t)) in
  take n (drop (i * n) (data t)).

(** *** Broadcasting *)

Fixpoint broadcast_rev (a b : list nat) : option (list nat) :=
  match a, b with
  | [], _ => Some b
  | _, [] => Some a
  | x :: a', y :: b' =>
      if x =? y then cons x <$> broadcast_rev a' b'
      else if x =? 1 then cons y <$> broadcast_rev a' b'
      else if y =? 1 then cons x <$> broadcast_rev a' b'
      else None
  end.

Definition broadcast_shapes (a b : list nat) : option (list nat) :=
  @rev nat <$> broadcast_rev (rev a) (rev b).

Definition bcast_index (s idx : list nat) : list nat :=
  zip_with (fun d i => if d =? 1 then 0 else i) s
           (drop (length idx - length s) idx).

(** The tensor of shape [s] whose element at index [idx] is [F idx]. *)
Definition tabulate (s : list nat) (F : list nat -> spec_float) : Tensor :=
  mkTensor s (map (fun i => F (unravel s i)) (seq 0 (numel s))).

Definition broadcast_op (f : spec_float -> spec_float -> spec_float)
    (a b : Tensor) : result Tensor :=
  match broadcast_shapes (shape a) (shape b) with
  | None => inl ShapeMismatch
  | Some s =>
      inr (tabulate s (fun idx => f (get a (bcast_index (shape a) idx))
                                    (get b (bcast_index (shape b) idx))))
  end.

(** *** Reductions over a set of dimensions *)

Definition in_dims (dims : list nat) (pos : nat) : bool :=
  existsb (Nat.eqb pos) dims.

Fixpoint split_shape (dims : list nat) (pos : nat) (s : list nat)
    : list nat * list nat :=
  match s with
  | [] => ([], [])
  | d :: s' =>
      let '(keep, red) := split_shape dims (S pos) s' in
      if in_dims dims pos then (keep, d :: red) else (d :: keep, red)
  end.

Fixpoint merge_index (dims : list nat) (pos : nat) (s o r : list nat)
    : list nat :=
  match s with
  | [] => []
  | _ :: s' =>
      if in_dims dims pos
      then hd 0 r :: merge_index dims (S pos) s' o (tail r)
      else hd 0 o :: merge_index dims (S pos) s' (tail o) r
  end.

(** A 0-dimensional tensor accepts [dim = 0]. *)
Definition dims_in_range (dims s : list nat) : bool :=
  forallb (fun d => d <? Nat.max 1 (length s)) dims.

Definition reduce (f : list spec_float -> spec_float) (dims : list nat)
    (t : Tensor) : result Tensor :=
  if dims_in_range dims (shape t) then
    let '(keep, red) := split_shape dims 0 (shape t) in
    inr (tabulate keep
           (fun o => f (map (fun r => get t (merge_index dims 0 (shape t) o
                                               (unravel red r)))
                            (seq 0 (numel red)))))
  else inl DimOutOfRange.

Definition fsum (xs : list spec_float) : spec_float :=
  fold_left F32.add xs F32.zero.

Definition norm2 (xs : list spec_float) : spec_float :=
  F32.sqrt (fsum (map (fun x => F32.mul x x) xs)).

Definition average (xs : list spec_float) : spec_float :=
  F32.div (fsum xs) (F32.of_nat (length xs)).

Definition torch_sub : Tensor -> Tensor -> result Tensor := broadcast_op F32.sub.
Definition torch_norm_p2 (dim : nat) : Tensor -> result Tensor := reduce norm2 [dim].
Definition torch_mean (dims : list nat) : Tensor -> result Tensor := reduce average dims.

(** ** [compute_epe_error] *)

Definition compute_epe_error (pred_flow gt_flow : Tensor) : result Tensor :=
  rbind (torch_sub pred_flow gt_flow) (fun d =>
  rbind (torch_norm_p2 1 d) (fun n =>
  rbind (torch_mean [1; 2] n) (fun m =>
  torch_mean [0] m))).

(** *** [torch.cat] along dimension 0

    A tensor of shape [[0]] is a legacy empty tensor: [torch.cat] skips it.
    The other tensors must have at least one dimension and agree on every
    dimension but the first. *)

Definition empty_1d : Tensor := mkTensor [0] [].

Definition is_legacy_empty (t : Tensor) : bool :=
  match shape t with [0] => true | _ => false end.

Definition shape_eqb (a b : list nat) : bool :=
  bool_decide (a = b).

Definition torch_cat0 (a b : Tensor) : result Tensor :=
  match shape a, shape b with
  | [], _ | _, [] => inl CatMismatch
  | da :: sa, db :: sb =>
      if is_legacy_empty a then inr (if is_legacy_empty b then empty_1d else b)
      else if is_legacy_empty b then inr a
      else if shape_eqb sa sb
           then inr (mkTensor ((da + db) :: sa) (data a ++ data b))
           else inl CatMismatch
  end.

(** [tensor.item()]: the single element as a Python float. *)
Definition item (t : Tensor) : result spec_float :=
  match data t with
  | [x] => inr (F64.of_f32 x)
  | _ => inl ItemError
  end.

(** ** Python numbers: [total_loss] starts as the integer [0] *)

Inductive pynum : Type :=
  | PyInt (z : Z)
  | PyFloat (x : spec_float).

Definition to_float (v : pynum) : spec_float :=
  match v with PyInt z => F64.of_Z z | PyFloat x => x end.

Definition py_add_float (v : pynum) (x : spec_float) : pynum :=
  PyFloat (F64.add (to_float v) x).

Definition py_truediv (v : pynum) (n : nat) : result spec_float :=
  match n with
  | 0 => inl ZeroDivisionError
  | _ => inr (F64.div (to_float v) (F64.of_nat n))
  end.

(** ** Data loaders *)

Fixpoint chunks_fuel {A} (fuel bs : nat) (l : list A) : list (list A) :=
  match fuel, l with
  | 0, _ | _, [] => []
  | S fuel', _ => take bs l :: chunks_fuel fuel' bs (drop bs l)
  end.

Definition chunks {A} (bs : nat) (l : list A) : list (list A) :=
  chunks_fuel (length l) bs l.

Record DataLoader (Sample : Type) : Type := mkLoader {
  dataset : list Sample;
  batch_size : nat;
  shuffle : bool
}.
Arguments mkLoader {Sample}.
Arguments dataset {Sample}.
Arguments batch_size {Sample}.
Arguments shuffle {Sample}.

(** [DataLoader(...)]: a batch size of 0 is refused. *)
Definition new_loader {Sample} (ds : list Sample) (bs : nat) (sh : bool)
    : result (DataLoader Sample) :=
  if bs =? 0 then inl ValueError else inr (mkLoader ds bs sh).

(** [len(loader)] with [drop_last=False]: the ceiling of [n / batch_size]. *)
Definition loader_len {Sample} (l : DataLoader Sample) : nat :=
  (length (dataset l) + batch_size l - 1) / batch_size l.

(** ** Process state *)

Record Globals (Gen : Type) : Type := mkGlobals {
  py_random : Gen;
  torch_cpu : Gen;
  torch_cuda : Gen;
  np_random : Gen;
  cudnn_deterministic : bool;
  cudnn_benchmark : bool
}.
Arguments mkGlobals {Gen}.
Arguments py_random {Gen}.
Arguments torch_cpu {Gen}.
Arguments torch_cuda {Gen}.
Arguments np_random {Gen}.
Arguments cudnn_deterministic {Gen}.
Arguments cudnn_benchmark {Gen}.

Inductive line : Type :=
  | OnEpoch (n : nat)
  | BatchLoss (i : nat) (loss : spec_float)
  | EpochLoss (n : nat) (mean : spec_float)
  | ModelSaved (path : string)
  | StartTest
  | TestDone.

Record Config (TrainCfg : Type) : Type := mkConfig {
  seed : Z;
  dataset_path : string;
  train_batch_size : nat;
  train_shuffle : bool;
  test_batch_size : nat;
  test_shuffle : bool;
  epochs : nat;
  train : TrainCfg
}.
Arguments mkConfig {TrainCfg}.
Arguments seed {TrainCfg}.
Arguments dataset_path {TrainCfg}.
Arguments train_batch_size {TrainCfg}.
Arguments train_shuffle {TrainCfg}.
Arguments test_batch_size {TrainCfg}.
Arguments test_shuffle {TrainCfg}.
Arguments epochs {TrainCfg}.
Arguments train {TrainCfg}.

Record Batch : Type := mkBatch { event_volume : Tensor; flow_gt : Tensor }.

(** Paths: a relative path is resolved against the working directory. *)
Definition is_absolute (p : string) : bool :=
  match p with String "/"%char _ => true | _ => false end.

Definition resolve (cwd p : string) : string :=
  if is_absolute p then p else cwd +:+ "/" +:+ p.

Definition load_path : string :=
  "/content/dl_lecture_competition_pub/checkpoints/model_20240717034219.pth".

Definition submission_name : string :=
  "/content/drive/MyDrive/DL最終課題event/submission".

(** ** The orchestrator *)

(** The mode of the network: [model.train()] or [model.eval()]. *)
Definition training : bool := true.
Definition evaluation : bool := false.

(** Collaborators of [main.py]: the random generators behind the seeding
    calls, the dataset provider and its collation, the network and the
    optimizer.  [forward] takes the mode the model is in; an optimizer step
    stands for [zero_grad], [loss.backward()] and [step] on the batch. *)
Class Collaborators : Type := {
  Gen : Type;
  Sample : Type;
  Params : Type;
  OptState : Type;
  Aux : Type;
  TrainCfg : Type;
  seed_python : Z -> Gen;
  seed_torch : Z -> Gen;
  seed_cuda : Z -> Gen;
  seed_numpy : Z -> Gen;
  randperm : Gen -> nat -> list nat * Gen;
  get_train_dataset : string -> list Sample;
  get_test_dataset : string -> list Sample;
  train_collate : list Sample -> Batch;
  EVFlowNet : TrainCfg -> Gen -> Params * Gen;
  forward : bool -> Params -> Tensor -> Tensor * Aux;
  Adam : Config TrainCfg -> Params -> OptState;
  optimizer_step : OptState -> Params -> Batch -> Params * OptState;
  state_compatible : Params -> Params -> bool
}.

Section Orchestrator.
Context `{C : Collaborators}.

Record World : Type := mkWorld {
  globals : Globals Gen;
  cwd : string;
  clock : string;
  dirs : gset string;
  checkpoints : gmap string Params;
  arrays : gmap string Tensor;
  stdout : list line
}.

Definition M (A : Type) : Type := World -> World * result A.

Definition ret {A} (a : A) : M A := fun w => (w, inr a).

Definition bind {A B} (m : M A) (k : A -> M B) : M B :=
  fun w => match m w with
           | (w', inr a) => k a w'
           | (w', inl e) => (w', inl e)
           end.

Definition lift {A} (r : result A) : M A := fun w => (w, r).

Notation "x <- m ;; k" := (bind m (fun x => k))
  (at level 100, m at next level, right associativity).
Notation "m ;;; k" := (bind m (fun _ => k))
  (at level 100, right associativity).

Fixpoint foldM {A S} (f : S -> A -> M S) (l : list A) (s : S) : M S :=
  match l with
  | [] => ret s
  | a :: l' => s' <- f s a ;; foldM f l' s'
  end.

Definition print (l : line) : M unit :=
  fun w => (mkWorld (globals w) (cwd w) (clock w) (dirs w) (checkpoints w)
              (arrays w) (stdout w ++ [l]), inr tt).

Definition set_globals (g : Globals Gen) : M unit :=
  fun w => (mkWorld g (cwd w) (clock w) (dirs w) (checkpoints w)
              (arrays w) (stdout w), inr tt).

(** *** [set_seed] *)

Definition random_seed (s : Z) (g : Globals Gen) : Globals Gen :=
  mkGlobals (seed_python s) (torch_cpu g) (torch_cuda g) (np_random g)
    (cudnn_deterministic g) (cudnn_benchmark g).

Definition torch_manual_seed (s : Z) (g : Globals Gen) : Globals Gen :=
  mkGlobals (py_random g) (seed_torch s) (seed_cuda s) (np_random g)
    (cudnn_deterministic g) (cudnn_benchmark g).

Definition torch_cuda_manual_seed_all (s : Z) (g : Globals Gen) : Globals Gen :=
  mkGlobals (py_random g) (torch_cpu g) (seed_cuda s) (np_random g)
    (cudnn_deterministic g) (cudnn_benchmark g).

Definition set_cudnn_deterministic (b : bool) (g : Globals Gen) : Globals Gen :=
  mkGlobals (py_random g) (torch_cpu g) (torch_cuda g) (np_random g)
    b (cudnn_benchmark g).

Definition set_cudnn_benchmark (b : bool) (g : Globals Gen) : Globals Gen :=
  mkGlobals (py_random g) (torch_cpu g) (torch_cuda g) (np_random g)
    (cudnn_deterministic g) b.

Definition np_random_seed (s : Z) (g : Globals Gen) : Globals Gen :=
  mkGlobals (py_random g) (torch_cpu g) (torch_cuda g) (seed_numpy s)
    (cudnn_deterministic g) (cudnn_benchmark g).

Definition set_seed (s : Z) (g : Globals Gen) : Globals Gen :=
  np_random_seed s
    (set_cudnn_benchmark false
       (set_cudnn_deterministic true
          (torch_cuda_manual_seed_all s
             (torch_manual_seed s
                (random_seed s g))))).

(** *** Iterating a loader *)

Definition sampler (l : DataLoader Sample) (g : Gen) : list nat * Gen :=
  if shuffle l then randperm g (length (dataset l))
  else (seq 0 (length (dataset l)), g).

Definition fetch (l : DataLoader Sample) (order : list nat) : list Sample :=
  omap (fun i => dataset l !! i) order.

Definition batches_of (l : DataLoader Sample) (order : list nat) : list Batch :=
  map train_collate (chunks (batch_size l) (fetch l order)).

Definition iter_loader (l : DataLoader Sample) : M (list Batch) :=
  fun w =>
    let '(order, g') := sampler l (torch_cpu (globals w)) in
    let g := globals w in
    (mkWorld (mkGlobals (py_random g) g' (torch_cuda g) (np_random g)
                (cudnn_deterministic g) (cudnn_benchmark g))
       (cwd w) (clock w) (dirs w) (checkpoints w) (arrays w) (stdout w),
     inr (batches_of l order)).

(** *** The training loop *)

Definition enumerate {A} (l : list A) : list (nat * A) :=
  zip (seq 0 (length l)) l.

Definition train_batch (st : Params * OptState * pynum) (ib : nat * Batch)
    : M (Params * OptState * pynum) :=
  let '(model, optimizer, total_loss) := st in
  let '(i, batch) := ib in
  let '(flow, flow_dict) := forward training model (event_volume batch) in
  loss <- lift (compute_epe_error flow (flow_gt batch)) ;;
  v <- lift (item loss) ;;
  print (BatchLoss i v) ;;;
  let '(model', optimizer') := optimizer_step optimizer model batch in
  ret (model', optimizer', py_add_float total_loss v).

Definition train_epoch (train_data : DataLoader Sample)
    (st : Params * OptState) (epoch : nat) : M (Params * OptState) :=
  let '(model, optimizer) := st in
  print (OnEpoch (epoch + 1)) ;;;
  batches <- iter_loader train_data ;;
  st' <- foldM train_batch (enumerate batches) (model, optimizer, PyInt 0) ;;
  let '(model', optimizer', total_loss) := st' in
  mean <- lift (py_truediv total_loss (loader_len train_data)) ;;
  print (EpochLoss (epoch + 1) mean) ;;;
  ret (model', optimizer').

Definition training_loop (n_epochs : nat) (train_data : DataLoader Sample)
    (st : Params * OptState) : M (Params * OptState) :=
  foldM (train_epoch train_data) (seq 0 n_epochs) st.

(** *** Checkpoint save and reload *)

Definition ensure_dir (d : string) : M unit :=
  fun w =>
    let p := resolve (cwd w) d in
    (mkWorld (globals w) (cwd w) (clock w)
       (if bool_decide (p ∈ dirs w) then dirs w else {[p]} ∪ dirs w)
       (checkpoints w) (arrays w) (stdout w), inr tt).

Definition torch_save (state : Params) (path : string) : M unit :=
  fun w =>
    (mkWorld (globals w) (cwd w) (clock w) (dirs w)
       (<[resolve (cwd w) path := state]> (checkpoints w))
       (arrays w) (stdout w), inr tt).

Definition torch_load (path : string) : M Params :=
  fun w =>
    match checkpoints w !! resolve (cwd w) path with
    | Some state => (w, inr state)
    | None => (w, inl FileNotFoundError)
    end.

Definition load_state_dict (model state : Params) : result Params :=
  if state_compatible model state then inr state else inl StateMismatch.

Definition strftime : M string := fun w => (w, inr (clock w)).

Definition save_checkpoint (model : Params) : M string :=
  ensure_dir "checkpoints" ;;;
  current_time <- strftime ;;
  let model_path := "checkpoints/model_" +:+ current_time +:+ ".pth" in
  torch_save model model_path ;;;
  print (ModelSaved model_path) ;;;
  ret model_path.

(** *** Inference and submission *)

Definition infer_batch (model : Params) (flow : Tensor) (batch : Batch)
    : M Tensor :=
  let '(flow_, batch_flow) := forward evaluation model (event_volume batch) in
  lift (torch_cat0 flow flow_).

Definition inference_loop (model : Params) (batches : list Batch)
    : M Tensor :=
  let flow := empty_1d in
  foldM (infer_batch model) batches flow.

Definition inference (model : Params) (test_data : DataLoader Sample)
    : M Tensor :=
  print StartTest ;;;
  batches <- iter_loader test_data ;;
  flow <- inference_loop model batches ;;
  print TestDone ;;;
  ret flow.

Definition save_optical_flow_to_npy (flow : Tensor) (file_name : string)
    : M unit :=
  fun w =>
    (mkWorld (globals w) (cwd w) (clock w) (dirs w) (checkpoints w)
       (<[resolve (cwd w) (file_name +:+ ".npy") := flow]> (arrays w))
       (stdout w), inr tt).

(** *** [main]

    [main] returns nothing; the record gathers the values its local
    variables hold when it returns. *)

Record Locals : Type := mkLocals {
  trained : Params;          (* [model.state_dict()] handed to [torch.save] *)
  saved_path : string;       (* [model_path] printed after the save *)
  restored : Params;         (* the model after [load_state_dict] *)
  submission : Tensor        (* [flow] handed to [np.save] *)
}.

Definition make_train_loader (args : Config TrainCfg)
    : result (DataLoader Sample) :=
  let train_set := get_train_dataset (dataset_path args) in
  new_loader train_set (train_batch_size args) (train_shuffle args).

Definition make_test_loader (args : Config TrainCfg)
    : result (DataLoader Sample) :=
  let test_set := get_test_dataset (dataset_path args) in
  new_loader test_set (test_batch_size args) (test_shuffle args).

Definition new_model (cfg : TrainCfg) : M Params :=
  fun w =>
    let g := globals w in
    let '(p, g') := EVFlowNet cfg (torch_cpu g) in
    (mkWorld (mkGlobals (py_random g) g' (torch_cuda g) (np_random g)
                (cudnn_deterministic g) (cudnn_benchmark g))
       (cwd w) (clock w) (dirs w) (checkpoints w) (arrays w) (stdout w),
     inr p).

Definition main (args : Config TrainCfg) : M Locals :=
  (fun w => set_globals (set_seed (seed args) (globals w)) w) ;;;
  train_data <- lift (make_train_loader args) ;;
  test_data <- lift (make_test_loader args) ;;
  model <- new_model (train args) ;;
  let optimizer := Adam args model in
  st <- training_loop (epochs args) train_data (model, optimizer) ;;
  let '(model, optimizer) := st in
  model_path <- save_checkpoint model ;;
  let model_path' := load_path in
  state <- torch_load model_path' ;;
  model' <- lift (load_state_dict model state) ;;
  flow <- inference model' test_data ;;
  save_optical_flow_to_npy flow submission_name ;;;
  ret (mkLocals model model_path model' flow).

(** *** Views of a run used in the statements *)

(** The primary prediction of the model on a batch. *)
Definition predict (model : Params) (batch : Batch) : Tensor :=
  fst (forward evaluation model (event_volume batch)).

(** The batches one pass over a loader yields from the state [w]. *)
Definition yielded (l : DataLoader Sample) (w : World) : list Batch :=
  batches_of l (fst (sampler l (torch_cpu (globals w)))).

(** The samples of one pass, in the order they are visited. *)
Definition visited (l : DataLoader Sample) (w : World) : list Sample :=
  fetch l (fst (sampler l (torch_cpu (globals w)))).

(** Successive [torch.cat] of the predictions onto the running buffer. *)
Fixpoint cat_all (flow : Tensor) (preds : list Tensor) : result Tensor :=
  match preds with
  | [] => inr flow
  | p :: preds' => rbind (torch_cat0 flow p) (fun flow' => cat_all flow' preds')
  end.


(** Worlds with the same files, working directory and clock. *)
Definition same_files (w1 w2 : World) : Prop :=
  cwd w1 = cwd w2 /\ clock w1 = clock w2 /\ dirs w1 = dirs w2 /\
  checkpoints w1 = checkpoints w2 /\ arrays w1 = arrays w2.

(** The state [main] starts its work from, once [set_seed] has run. *)
Definition seeded (args : Config TrainCfg) (w : World) : World :=
  mkWorld (set_seed (seed args) (globals w)) (cwd w) (clock w) (dirs w)
    (checkpoints w) (arrays w) (stdout w).

(** The file a relative checkpoint path of this run denotes. *)
Definition checkpoint_file (w : World) : string :=
  resolve (cwd w) ("checkpoints/model_" +:+ clock w +:+ ".pth").

(** *** The two phases of [main]

    [train_phase] is [main] up to the end of the epoch loop (lines 66-151),
    [predict_phase] the rest (lines 167-195); [main] is their sequence. *)

Definition train_phase (args : Config TrainCfg)
    : M (Params * DataLoader Sample) :=
  (fun w => set_globals (set_seed (seed args) (globals w)) w) ;;;
  train_data <- lift (make_train_loader args) ;;
  test_data <- lift (make_test_loader args) ;;
  model <- new_model (train args) ;;
  let optimizer := Adam args model in
  st <- training_loop (epochs args) train_data (model, optimizer) ;;
  ret (fst st, test_data).

Definition predict_phase (model : Params) (test_data : DataLoader Sample)
    : M Locals :=
  model_path <- save_checkpoint model ;;
  let model_path' := load_path in
  state <- torch_load model_path' ;;
  model' <- lift (load_state_dict model state) ;;
  flow <- inference model' test_data ;;
  save_optical_flow_to_npy flow submission_name ;;;
  ret (mkLocals model model_path model' flow).

(** The directory [os.makedirs] creates. *)
Definition checkpoint_dir (w : World) : string := resolve (cwd w) "checkpoints".

End Orchestrator.

(** ** The loss as the specification words it

    Per pixel, the Euclidean norm of the two-component difference; the mean
    over the [H * W] pixels of a sample; the mean over the [B] samples. *)

Definition pixel_error (pred_flow gt_flow : Tensor) (b h w : nat) : spec_float :=
  let dx := F32.sub (get pred_flow [b; 0; h; w]) (get gt_flow [b; 0; h; w]) in
  let dy := F32.sub (get pred_flow [b; 1; h; w]) (get gt_flow [b; 1; h; w]) in
  F32.sqrt (F32.add (F32.mul dx dx) (F32.mul dy dy)).

Definition sample_error (pred_flow gt_flow : Tensor) (H W b : nat) : spec_float :=
  average (flat_map (fun h => map (fun w => pixel_error pred_flow gt_flow b h w)
                                  (seq 0 W))
                    (seq 0 H)).

Definition epe_spec (pred_flow gt_flow : Tensor) (B H W : nat) : spec_float :=
  average (map (sample_error pred_flow gt_flow H W) (seq 0 B)).

(** ** Auxiliary notions used in the statements *)

Definition full (s : list nat) (x : spec_float) : Tensor :=
  mkTensor s (repeat x (numel s)).

Definition scalar (x : spec_float) : Tensor := mkTensor [] [x].

Definition in_range (idx s : list nat) : Prop := Forall2 lt idx s.

Definition broadcastable (a b : list nat) : bool :=
  match broadcast_shapes a b with Some _ => true | None => false end.

(** A float that is NaN or has its sign bit clear: never a negative number. *)
Definition never_negative (x : spec_float) : bool := is_nan x || sign_clear x.

Definition all_finite (t : Tensor) : Prop :=
  Forall (fun x => is_finite x = true) (data t).

(** ** Concrete tensors used in the examples *)

Definition f32_of_Z (z : Z) : spec_float :=
  binary_normalize F32.prec F32.emax z 0 false.

(** The largest finite binary32 value, [(2^24 - 1) * 2^104]. *)
Definition f32_max : spec_float := S754_finite false 16777215 104.

Definition ex_pred : Tensor :=
  mkTensor [1; 2; 2; 2] (map f32_of_Z [3; 0; 0; 0; 4; 0; 0; 1]%Z).

Definition ex_gt : Tensor :=
  mkTensor [1; 2; 2; 2] (map f32_of_Z [0; 0; 0; 0; 0; 0; 0; 0]%Z).

Definition flow_shape (B : nat) : list nat := [B; 2; 480; 640].

(** The arithmetic of the end-of-epoch report on the per-batch losses. *)
Definition epoch_mean (losses : list spec_float) (n_batches : nat)
    : result spec_float :=
  py_truediv (fold_left py_add_float losses (PyInt 0)) n_batches.

(** The sum of the losses divided by their count, in binary64. *)
Definition mean_of_losses (losses : list spec_float) (n_batches : nat)
    : spec_float :=
  F64.div (fold_left F64.add losses F64.zero) (F64.of_nat n_batches).

(** The Python float literals [0.4], [0.6] and [0.5]. *)
Definition py_0_4 : spec_float := S754_finite false 7205759403792794 (-54).
Definition py_0_6 : spec_float := S754_finite false 5404319552844595 (-53).
Definition py_0_5 : spec_float := S754_finite false 4503599627370496 (-53).

Definition sum_list (l : list nat) : nat := fold_right Nat.add 0 l.

(** ** A small instance of the collaborators

    Samples are numbered; a sample's event volume and ground-truth flow are
    filled with its number.  The network is a single weight added to the
    first two channels of its input; one optimizer step increments it.  The
    random permutation is the reversal. *)

Definition toy_sample_tensor (channels H W : nat) (ids : list nat) : Tensor :=
  mkTensor [length ids; channels; H; W]
    (flat_map (fun id => repeat (f32_of_Z (Z.of_nat id)) (channels * (H * W))) ids).

Definition toy_dataset (n : nat) (path : string) : list nat :=
  if String.eqb path "data" then seq 0 n else [].

Definition toy_forward (H W : nat) (mode : bool) (p : nat) (x : Tensor)
    : Tensor * unit :=
  (tabulate [hd 0 (shape x); 2; H; W]
     (fun idx => F32.add (get x idx) (f32_of_Z (Z.of_nat p))), tt).

Definition toy_batch (H W : nat) (ids : list nat) : Batch :=
  mkBatch (toy_sample_tensor 4 H W ids) (toy_sample_tensor 2 H W ids).

#[local] Instance toy (H W n_train n_test : nat) : Collaborators := {|
  Gen := nat;
  Sample := nat;
  Params := nat;
  OptState := unit;
  Aux := unit;
  TrainCfg := unit;
  seed_python := Z.to_nat;
  seed_torch := Z.to_nat;
  seed_cuda := Z.to_nat;
  seed_numpy := Z.to_nat;
  randperm := fun g n => (rev (seq 0 n), S g);
  get_train_dataset := toy_dataset n_train;
  get_test_dataset := toy_dataset n_test;
  train_collate := toy_batch H W;
  EVFlowNet := fun _ g => (g mod 5, S g);
  forward := toy_forward H W;
  Adam := fun _ _ => tt;
  optimizer_step := fun opt p _ => (S p, opt);
  state_compatible := fun _ _ => true
|}.

Definition toy_args (sh_test : bool) (n_epochs : nat) : Config unit :=
  mkConfig 42%Z "data" 2 false 2 sh_test n_epochs tt.

Definition toy_globals (g : nat) : Globals nat := mkGlobals g g g g false true.

(** A process started in the repository directory, with an older checkpoint
    at the path [main] reloads from. *)
Definition toy_world (H W n_train n_test : nat) (g : nat)
    : @World (toy H W n_train n_test) :=
  @mkWorld (toy H W n_train n_test) (toy_globals g)
    "/content/dl_lecture_competition_pub" "20241103120000"
    ∅ {[ load_path := 1000 ]} ∅ [].

(** The file [np.save] writes the submission to. *)
Definition submission_file : string := submission_name +:+ ".npy".

(** The same process with no file at the path [main] reloads from. *)
Definition toy_world_fresh (H W n_train n_test : nat) (g : nat)
    : @World (toy H W n_train n_test) :=
  @mkWorld (toy H W n_train n_test) (toy_globals g)
    "/content/dl_lecture_competition_pub" "20241103120000" ∅ ∅ ∅ [].

(** Observers of an outcome. *)
Definition raises {A} (r : result A) (e : exn) : Prop :=
  match r with inl e' => e' = e | inr _ => False end.

Definition returns {A} (r : result A) (P : A -> Prop) : Prop :=
  match r with inr a => P a | inl _ => False end.


(** ** The loss of a difference tensor

    [epe_of D B H W] is the loss computed from the element function [D] of a
    difference tensor of shape [[B, 2, H, W]]. *)

Definition pixel_norm_of (D : list nat -> spec_float) (b h w : nat) : spec_float :=
  F32.sqrt (F32.add (F32.mul (D [b; 0; h; w]) (D [b; 0; h; w]))
                    (F32.mul (D [b; 1; h; w]) (D [b; 1; h; w]))).

Definition epe_of (D : list nat -> spec_float) (B H W : nat) : spec_float :=
  average (map (fun b =>
                  average (flat_map (fun h => map (pixel_norm_of D b h) (seq 0 W))
                                    (seq 0 H)))
               (seq 0 B)).

(** The difference [pred_flow - gt_flow] at a broadcast index. *)
Definition diff_at (pred_flow gt_flow : Tensor) (idx : list nat) : spec_float :=
  F32.sub (get pred_flow (bcast_index (shape pred_flow) idx))
          (get gt_flow (bcast_index (shape gt_flow) idx)).

(** The exceptions of the epoch loop and those of the reload and inference. *)
Definition training_error (e : exn) : Prop :=
  e = ShapeMismatch \/ e = DimOutOfRange \/ e = ItemError \/
  e = ZeroDivisionError.

Definition prediction_error (e : exn) : Prop :=
  e = FileNotFoundError \/ e = StateMismatch \/ e = CatMismatch.

(** The lines one epoch prints. *)
Definition epoch_lines {Sample} (train_data : DataLoader Sample) (epoch : nat)
    (losses : list spec_float) : list line :=
  OnEpoch (epoch + 1)
  :: zip_with BatchLoss (seq 0 (length losses)) losses
  ++ [EpochLoss (epoch + 1) (mean_of_losses losses (loader_len train_data))].

(** * Properties *)

(** ** Index arithmetic *)

Lemma numel_cons d s : numel (d :: s) = d * numel s.
Proof. reflexivity. Qed.

Ltac solve_range :=
  unfold in_range; repeat (apply List.Forall2_cons; [lia|]);
  apply List.Forall2_nil.

Lemma in_range_length idx s : in_range idx s -> length idx = length s.
Proof. apply Forall2_length. Qed.

Lemma unravel_in_range s : forall i, i < numel s -> in_range (unravel s i) s.
Proof.
  induction s as [|d s IH]; intros i Hi; [constructor|].
  rewrite numel_cons in Hi. cbn [unravel].
  assert (Hn : numel s <> 0) by (intros E; rewrite E in Hi; lia).
  constructor.
  - apply Nat.Div0.div_lt_upper_bound. lia.
  - apply IH. apply Nat.mod_upper_bound, Hn.
Qed.

Lemma ravel_unravel s : forall i, i < numel s -> ravel s (unravel s i) = i.
Proof.
  induction s as [|d s IH]; intros i Hi.
  - cbn in *. lia.
  - rewrite numel_cons in Hi. cbn [unravel ravel].
    assert (Hn : numel s <> 0) by (intros E; rewrite E in Hi; lia).
    rewrite IH by (apply Nat.mod_upper_bound, Hn).
    rewrite (Nat.div_mod_eq i (numel s)) at 3. lia.
Qed.

Lemma ravel_lt s idx : in_range idx s -> ravel s idx < numel s.
Proof.
  induction 1 as [|i d idx s Hi _ IH]; [cbn; lia|].
  rewrite numel_cons. cbn [ravel]. nia.
Qed.

Lemma unravel_ravel s idx : in_range idx s -> unravel s (ravel s idx) = idx.
Proof.
  induction 1 as [|i d idx s Hi Hr IH]; [reflexivity|].
  pose proof (ravel_lt _ _ Hr) as Hlt.
  cbn [ravel unravel]. f_equal.
  - rewrite Nat.div_add_l by lia. rewrite Nat.div_small by lia. lia.
  - rewrite Nat.add_comm, Nat.Div0.mod_add, Nat.mod_small by lia. exact IH.
Qed.

Lemma nth_map_seq {A} (G : nat -> A) n i d :
  i < n -> nth i (map G (seq 0 n)) d = G i.
Proof.
  intros Hi. rewrite (nth_indep _ d (G 0)) by (rewrite length_map, length_seq; lia).
  rewrite (map_nth G (seq 0 n) 0 i), seq_nth by lia. reflexivity.
Qed.

Lemma get_tabulate s F idx : in_range idx s -> get (tabulate s F) idx = F idx.
Proof.
  intros Hr. unfold get, tabulate. cbn [shape data].
  rewrite nth_map_seq by (apply ravel_lt, Hr).
  rewrite unravel_ravel by exact Hr. reflexivity.
Qed.

Lemma wf_tabulate s F : wf (tabulate s F).
Proof. unfold wf, tabulate. cbn. rewrite length_map, length_seq. reflexivity. Qed.

(** ** Broadcasting *)

Lemma broadcast_rev_refl a : broadcast_rev a a = Some a.
Proof.
  induction a as [|x a IH]; [reflexivity|].
  cbn. rewrite Nat.eqb_refl, IH. reflexivity.
Qed.

Lemma broadcast_shapes_refl a : broadcast_shapes a a = Some a.
Proof.
  unfold broadcast_shapes. rewrite broadcast_rev_refl. cbn.
  rewrite rev_involutive. reflexivity.
Qed.

Lemma bcast_index_same s idx : in_range idx s -> bcast_index s idx = idx.
Proof.
  intros Hr. unfold bcast_index.
  rewrite (in_range_length _ _ Hr), Nat.sub_diag, drop_0.
  induction Hr as [|i d idx s Hi _ IH]; [reflexivity|].
  cbn. rewrite IH. destruct (d =? 1) eqn:E; [|reflexivity].
  apply Nat.eqb_eq in E. f_equal. lia.
Qed.

Lemma broadcast_op_same f a b s :
  shape a = s -> shape b = s ->
  broadcast_op f a b = inr (tabulate s (fun idx => f (get a (bcast_index s idx))
                                                     (get b (bcast_index s idx)))).
Proof.
  intros Ha Hb. unfold broadcast_op. rewrite Ha, Hb, broadcast_shapes_refl.
  reflexivity.
Qed.

(** ** The three reductions of [compute_epe_error] on a 4-d tensor *)

Lemma tabulate_ext s F G :
  (forall idx, F idx = G idx) -> tabulate s F = tabulate s G.
Proof.
  intros E. unfold tabulate. f_equal. apply map_ext. intros i. apply E.
Qed.

Lemma reduce_dim1_4d f t B C H W :
  shape t = [B; C; H; W] ->
  reduce f [1] t =
    inr (tabulate [B; H; W]
           (fun o => f (map (fun c => get t [hd 0 o; c; hd 0 (tail o);
                                             hd 0 (tail (tail o))])
                            (seq 0 C)))).
Proof.
  intros Hs. unfold reduce. rewrite Hs. cbn -[tabulate get seq Nat.div Nat.modulo].
  f_equal. rewrite Nat.mul_1_r.
  apply tabulate_ext. intros o. f_equal.
  apply map_ext. intros c. rewrite Nat.div_1_r. reflexivity.
Qed.

Lemma reduce_dim12_3d f t B H W :
  shape t = [B; H; W] ->
  reduce f [1; 2] t =
    inr (tabulate [B]
           (fun o => f (map (fun q => get t [hd 0 o; q / W; q mod W])
                            (seq 0 (H * W))))).
Proof.
  intros Hs. unfold reduce. rewrite Hs. cbn -[tabulate get seq Nat.div Nat.modulo].
  f_equal. rewrite !Nat.mul_1_r.
  apply tabulate_ext. intros o. f_equal.
  apply map_ext. intros q. rewrite Nat.div_1_r. reflexivity.
Qed.

Lemma reduce_dim0_1d f t B :
  shape t = [B] ->
  reduce f [0] t = inr (scalar (f (map (fun b => get t [b]) (seq 0 B)))).
Proof.
  intros Hs. unfold reduce. rewrite Hs. cbn -[get seq Nat.div Nat.modulo].
  rewrite !Nat.mul_1_r. unfold scalar, tabulate. cbn -[get Nat.div].
  do 4 f_equal.
  apply map_ext. intros b. rewrite Nat.div_1_r. reflexivity.
Qed.

Lemma seq_rows {A} (F : nat -> nat -> A) H W :
  map (fun q => F (q / W) (q mod W)) (seq 0 (H * W)) =
  flat_map (fun h => map (F h) (seq 0 W)) (seq 0 H).
Proof.
  induction H as [|H IH]; [reflexivity|].
  replace (S H * W) with (H * W + W) by lia.
  rewrite seq_app, map_app, IH, seq_S, flat_map_app. cbn [flat_map].
  rewrite app_nil_r. f_equal. cbn [Nat.add].
  rewrite <- (Nat.add_0_r (H * W)) at 1. rewrite <- fmap_add_seq.
  change (map ?f (?g <$> ?l)) with (map f (map g l)). rewrite map_map.
  apply map_ext_in. intros w Hw. apply in_seq in Hw.
  f_equal.
  - rewrite Nat.add_comm, Nat.div_add by lia. rewrite Nat.div_small by lia. lia.
  - rewrite Nat.add_comm, Nat.Div0.mod_add, Nat.mod_small by lia. reflexivity.
Qed.

(** ** Signs of rounded results *)

Lemma binary_round_aux_sign prec emax sx mx ex lx :
  let r := binary_round_aux prec emax sx mx ex lx in
  r = S754_nan \/ r = S754_zero sx \/ r = S754_infinity sx \/
  exists m e, r = S754_finite sx m e.
Proof.
  cbv zeta. unfold binary_round_aux.
  destruct (shr_fexp prec emax mx ex lx) as [mrs' e'].
  destruct (shr_fexp prec emax _ e' loc_Exact) as [mrs'' e''].
  destruct (shr_m mrs''); [auto| |auto].
  destruct (Z.leb e'' (emax - prec)); eauto 6.
Qed.

Lemma mul_self_not_negzero x : F32.mul x x <> S754_zero true.
Proof.
  destruct x as [s|s| |s m e]; cbn; try discriminate;
    try (destruct s; discriminate).
  pose proof (binary_round_aux_sign F32.prec F32.emax (xorb s s)
                (Z.pos (m * m)) (e + e) loc_Exact) as Hr.
  cbv zeta in Hr. rewrite xorb_nilpotent in *.
  destruct Hr as [E|[E|[E|(m' & e' & E)]]]; rewrite E; discriminate.
Qed.

Lemma add_zero_l x : x <> S754_zero true -> F32.add F32.zero x = x.
Proof.
  intros Hx. destruct x as [[]| | |]; try reflexivity. congruence.
Qed.

Lemma norm2_pair x y :
  norm2 [x; y] = F32.sqrt (F32.add (F32.mul x x) (F32.mul y y)).
Proof.
  unfold norm2, fsum. cbn [map fold_left].
  rewrite add_zero_l by apply mul_self_not_negzero. reflexivity.
Qed.

(** ** [compute_epe_error] computes the per-pixel, per-sample, per-batch mean *)

Lemma epe_pixelwise pred_flow gt_flow B H W :
  shape pred_flow = [B; 2; H; W] ->
  shape gt_flow = [B; 2; H; W] ->
  compute_epe_error pred_flow gt_flow =
    inr (scalar (epe_spec pred_flow gt_flow B H W)).
Proof.
  intros Hp Hg. unfold compute_epe_error, torch_sub, torch_norm_p2, torch_mean.
  rewrite (broadcast_op_same _ _ _ _ Hp Hg). cbn [rbind].
  rewrite (reduce_dim1_4d _ _ B 2 H W) by reflexivity. cbn [rbind].
  rewrite (reduce_dim12_3d _ _ B H W) by reflexivity. cbn [rbind].
  rewrite (reduce_dim0_1d _ _ B) by reflexivity.
  do 2 f_equal. unfold epe_spec. f_equal.
  apply map_ext_in. intros b Hb. apply in_seq in Hb.
  rewrite get_tabulate by solve_range.
  cbn [hd]. unfold sample_error. f_equal.
  rewrite <- (seq_rows (fun h w => pixel_error pred_flow gt_flow b h w)).
  apply map_ext_in. intros q Hq. apply in_seq in Hq.
  assert (HW : W <> 0) by (intros ->; lia).
  assert (Hh : q / W < H) by (apply Nat.Div0.div_lt_upper_bound; lia).
  assert (Hw : q mod W < W) by (apply Nat.mod_upper_bound, HW).
  rewrite get_tabulate by solve_range.
  cbn [hd tail seq map].
  rewrite !get_tabulate by solve_range.
  rewrite !bcast_index_same by solve_range.
  rewrite norm2_pair. reflexivity.
Qed.

(** ** When [compute_epe_error] raises *)

Lemma in_dims_above dims pos :
  Forall (fun d => d < pos) dims -> in_dims dims pos = false.
Proof.
  unfold in_dims. induction 1 as [|d dims Hd _ IH]; [reflexivity|].
  cbn [existsb]. rewrite IH, orb_false_r. apply Nat.eqb_neq. lia.
Qed.

Lemma split_shape_above dims s : forall pos,
  Forall (fun d => d < pos) dims -> split_shape dims pos s = (s, []).
Proof.
  induction s as [|d s IH]; intros pos Hd; [reflexivity|].
  cbn [split_shape]. rewrite IH by (eapply Forall_impl; [exact Hd|]; cbn; lia).
  rewrite in_dims_above by exact Hd. reflexivity.
Qed.

Lemma reduce_shape f dims t :
  dims_in_range dims (shape t) = true ->
  exists v, reduce f dims t = inr v /\
            shape v = fst (split_shape dims 0 (shape t)).
Proof.
  intros Hd. unfold reduce. rewrite Hd.
  destruct (split_shape dims 0 (shape t)) as [keep red].
  eexists. split; reflexivity.
Qed.

Lemma reduce_out_of_range f dims t :
  dims_in_range dims (shape t) = false -> reduce f dims t = inl DimOutOfRange.
Proof. intros Hd. unfold reduce. rewrite Hd. reflexivity. Qed.

Lemma epe_not_broadcastable pred_flow gt_flow :
  broadcast_shapes (shape pred_flow) (shape gt_flow) = None ->
  compute_epe_error pred_flow gt_flow = inl ShapeMismatch.
Proof.
  intros Hb. unfold compute_epe_error, torch_sub, broadcast_op.
  rewrite Hb. reflexivity.
Qed.

Lemma epe_after_broadcast pred_flow gt_flow s :
  broadcast_shapes (shape pred_flow) (shape gt_flow) = Some s ->
  if 4 <=? length s
  then exists v, compute_epe_error pred_flow gt_flow = inr v /\
                 shape v = drop 4 s
  else compute_epe_error pred_flow gt_flow = inl DimOutOfRange.
Proof.
  intros Hb. unfold compute_epe_error, torch_sub, broadcast_op.
  rewrite Hb. cbn [rbind]. unfold torch_norm_p2, torch_mean.
  set (d := tabulate s _). assert (Hd : shape d = s) by reflexivity. clearbody d.
  destruct s as [|a [|b [|c [|e rest]]]]; cbn [length Nat.leb].
  - rewrite reduce_out_of_range by (rewrite Hd; reflexivity). reflexivity.
  - rewrite reduce_out_of_range by (rewrite Hd; reflexivity). reflexivity.
  - destruct (reduce_shape norm2 [1] d) as (n & -> & Hn);
      [rewrite Hd; reflexivity|]. cbn [rbind].
    rewrite Hd in Hn. cbn in Hn.
    rewrite reduce_out_of_range by (rewrite Hn; reflexivity). reflexivity.
  - destruct (reduce_shape norm2 [1] d) as (n & -> & Hn);
      [rewrite Hd; reflexivity|]. cbn [rbind].
    rewrite Hd in Hn. cbn in Hn.
    rewrite reduce_out_of_range by (rewrite Hn; reflexivity). reflexivity.
  - destruct (reduce_shape norm2 [1] d) as (n & -> & Hn);
      [rewrite Hd; reflexivity|]. cbn [rbind].
    rewrite Hd in Hn. cbn [split_shape] in Hn.
    rewrite split_shape_above in Hn by (repeat constructor; lia). cbn in Hn.
    destruct (reduce_shape average [1; 2] n) as (m & -> & Hm);
      [rewrite Hn; reflexivity|]. cbn [rbind].
    rewrite Hn in Hm. cbn [split_shape] in Hm.
    rewrite split_shape_above in Hm by (repeat constructor; lia). cbn in Hm.
    destruct (reduce_shape average [0] m) as (v & -> & Hv);
      [rewrite Hm; destruct rest; reflexivity|].
    exists v. split; [reflexivity|].
    rewrite Hv, Hm. cbn [split_shape].
    rewrite split_shape_above by (repeat constructor; lia). reflexivity.
Qed.

(** ** Rounding a positive mantissa above the underflow threshold *)

Section Rounding.
Variables prec emax : Z.
Hypothesis prec_pos : (1 <= prec)%Z.

Lemma digits2_pos_size p : digits2_pos p = Pos.size p.
Proof using Type*. induction p; cbn; congruence. Qed.

Lemma Zdigits2_log2 m : (0 < m)%Z -> Zdigits2 m = (Z.log2 m + 1)%Z.
Proof using Type*.
  destruct m as [|p|p]; try lia. intros _.
  destruct p; cbn; rewrite ?digits2_pos_size; lia.
Qed.

Lemma shr_1_m mrs :
  (0 <= shr_m mrs)%Z -> shr_m (shr_1 mrs) = Z.shiftr (shr_m mrs) 1.
Proof using Type*.
  rewrite <- Z.div2_spec.
  destruct mrs as [m r s]. cbn [shr_m].
  destruct m as [|[p|p|]|p]; intros Hm; try reflexivity; lia.
Qed.

Lemma iter_shr_1_m p : forall mrs,
  (0 <= shr_m mrs)%Z ->
  shr_m (SpecFloat.iter_pos shr_1 p mrs) = Z.shiftr (shr_m mrs) (Z.pos p).
Proof using Type*.
  induction p as [p IH|p IH|]; intros mrs Hm; cbn [SpecFloat.iter_pos].
  - assert (H1 : (0 <= shr_m (shr_1 mrs))%Z)
      by (rewrite shr_1_m by exact Hm; apply Z.shiftr_nonneg, Hm).
    assert (H2 : (0 <= shr_m (SpecFloat.iter_pos shr_1 p (shr_1 mrs)))%Z)
      by (rewrite IH by exact H1; apply Z.shiftr_nonneg, H1).
    rewrite IH, IH, shr_1_m by assumption.
    rewrite !Z.shiftr_shiftr by lia. f_equal. lia.
  - assert (H2 : (0 <= shr_m (SpecFloat.iter_pos shr_1 p mrs))%Z)
      by (rewrite IH by exact Hm; apply Z.shiftr_nonneg, Hm).
    rewrite IH, IH by assumption.
    rewrite Z.shiftr_shiftr by lia. f_equal. lia.
  - apply shr_1_m, Hm.
Qed.

Lemma shr_m_shr mrs e n :
  (0 <= shr_m mrs)%Z ->
  shr_m (fst (shr mrs e n)) = Z.shiftr (shr_m mrs) (Z.max 0 n) /\
  snd (shr mrs e n) = (e + Z.max 0 n)%Z.
Proof using Type*.
  intros Hm. destruct n as [|p|p]; cbn [shr fst snd].
  - rewrite Z.shiftr_0_r. split; [reflexivity|lia].
  - rewrite iter_shr_1_m by exact Hm. split; f_equal; lia.
  - replace (Z.max 0 (Z.neg p)) with 0%Z by lia.
    rewrite Z.shiftr_0_r. split; [reflexivity|lia].
Qed.

Lemma shr_m_of_loc m l : shr_m (shr_record_of_loc m l) = m.
Proof using Type*. destruct l as [|[]]; reflexivity. Qed.

Lemma shiftr_pos m k :
  (0 < m)%Z -> (0 <= k <= Z.log2 m)%Z -> (0 < Z.shiftr m k)%Z.
Proof using Type*.
  intros Hm Hk. rewrite Z.shiftr_div_pow2 by lia.
  apply Z.div_str_pos. split; [apply Z.pow_pos_nonneg; lia|].
  transitivity (2 ^ Z.log2 m)%Z.
  - apply Z.pow_le_mono_r; lia.
  - apply Z.log2_spec, Hm.
Qed.

(** The mantissa kept by [shr_fexp] is positive, and the number keeps its
    magnitude [log2 m + e]. *)
Lemma shr_fexp_pos m e l :
  (0 < m)%Z -> (emin prec emax <= Z.log2 m + e)%Z ->
  let '(mrs, e') := shr_fexp prec emax m e l in
  (0 < shr_m mrs)%Z /\ (Z.log2 (shr_m mrs) + e' = Z.log2 m + e)%Z.
Proof using Type*.
  intros Hm He. unfold shr_fexp.
  pose proof (shr_m_shr (shr_record_of_loc m l) e
                (fexp prec emax (Zdigits2 m + e) - e)) as Hs.
  rewrite shr_m_of_loc in Hs. specialize (Hs ltac:(lia)).
  destruct (shr _ e _) as [mrs e']. cbn [fst snd] in Hs.
  destruct Hs as [-> ->].
  rewrite Zdigits2_log2 by exact Hm. unfold fexp.
  pose proof (Z.log2_nonneg m) as Hl.
  set (k := Z.max 0 _).
  assert (Hk : (0 <= k <= Z.log2 m)%Z) by (subst k; lia).
  split; [apply shiftr_pos; assumption|].
  rewrite Z.log2_shiftr by exact Hm. lia.
Qed.

Lemma round_nearest_even_ge m l :
  (m <= round_nearest_even m l <= m + 1)%Z.
Proof using Type*.
  destruct l as [|[]]; cbn; try lia. destruct (Z.even m); lia.
Qed.

Lemma binary_round_aux_pos sx m e l :
  (0 < m)%Z -> (emin prec emax <= Z.log2 m + e)%Z ->
  let r := binary_round_aux prec emax sx m e l in
  r = S754_infinity sx \/ exists m' e', r = S754_finite sx m' e'.
Proof using Type*.
  intros Hm He. cbv zeta. unfold binary_round_aux.
  pose proof (shr_fexp_pos m e l Hm He) as H1.
  destruct (shr_fexp prec emax m e l) as [mrs' e']. destruct H1 as [H1 H1e].
  pose proof (round_nearest_even_ge (shr_m mrs') (loc_of_shr_record mrs')) as Hr.
  set (m1 := round_nearest_even _ _) in *.
  assert (Hl : (Z.log2 (shr_m mrs') <= Z.log2 m1)%Z)
    by (apply Z.log2_le_mono; lia).
  pose proof (shr_fexp_pos m1 e' loc_Exact ltac:(lia) ltac:(lia)) as H2.
  destruct (shr_fexp prec emax m1 e' loc_Exact) as [mrs'' e''].
  destruct H2 as [H2 _].
  destruct (shr_m mrs'') as [|p|p]; try lia.
  destruct (Z.leb e'' (emax - prec)); eauto.
Qed.

Lemma binary_round_pos sx m :
  (emin prec emax <= 0)%Z ->
  let r := binary_round prec emax sx m 0 in
  r = S754_infinity sx \/ exists m' e', r = S754_finite sx m' e'.
Proof using Type*.
  intros Hmin. cbv zeta. unfold binary_round, shl_align.
  pose proof (Z.log2_nonneg (Z.pos m)) as Hl.
  destruct (fexp prec emax (Z.pos (digits2_pos m) + 0) - 0)%Z eqn:E;
    apply binary_round_aux_pos; try lia.
  pose proof (Z.log2_nonneg (Z.pos (Pos.iter xO m p))).
  unfold fexp in *. lia.
Qed.
End Rounding.

(** ** Signs through the arithmetic of the loss *)

Lemma F32_emin : emin F32.prec F32.emax = (-149)%Z.
Proof. reflexivity. Qed.

Lemma round_aux_never_negative mx ex lx :
  never_negative (binary_round_aux F32.prec F32.emax false mx ex lx) = true.
Proof.
  pose proof (binary_round_aux_sign F32.prec F32.emax false mx ex lx) as Hr.
  cbv zeta in Hr.
  destruct Hr as [E|[E|[E|(m & e & E)]]]; rewrite E; reflexivity.
Qed.

Lemma round_never_negative mx ex :
  never_negative (binary_round F32.prec F32.emax false mx ex) = true.
Proof.
  unfold binary_round. destruct (shl_align mx ex _) as [mz ez].
  apply round_aux_never_negative.
Qed.

Lemma sqrt_never_negative x :
  never_negative x = true -> never_negative (F32.sqrt x) = true.
Proof.
  destruct x as [[]|[]| |[] m e]; try discriminate; try reflexivity; intros _.
  unfold F32.sqrt, SFsqrt.
  destruct (SFsqrt_core_binary _ _ _ _) as [[mz ez] lz].
  apply round_aux_never_negative.
Qed.

Lemma mul_self_never_negative x : never_negative (F32.mul x x) = true.
Proof.
  destruct x as [[]|[]| |s m e]; try reflexivity.
  unfold F32.mul, SFmul. rewrite xorb_nilpotent.
  apply round_aux_never_negative.
Qed.

Lemma add_never_negative x y :
  never_negative x = true -> never_negative y = true ->
  never_negative (F32.add x y) = true.
Proof.
  destruct x as [[]|[]| |[] mx ex]; destruct y as [[]|[]| |[] my ey];
    try discriminate; try reflexivity; intros _ _.
  - unfold F32.add, SFadd, cond_Zopp.
    destruct (shl_align mx ex _) as [a ea], (shl_align my ey _) as [b eb].
    cbn [fst Z.add binary_normalize]. apply round_never_negative.
Qed.

Lemma div_never_negative x y :
  never_negative x = true -> never_negative y = true ->
  never_negative (F32.div x y) = true.
Proof.
  destruct x as [[]|[]| |[] mx ex]; destruct y as [[]|[]| |[] my ey];
    try discriminate; try reflexivity; intros _ _.
  unfold F32.div, SFdiv.
  destruct (SFdiv_core_binary _ _ _ _ _ _) as [[mz ez] lz].
  apply round_aux_never_negative.
Qed.

Lemma of_nat_never_negative n : never_negative (F32.of_nat n) = true.
Proof.
  unfold F32.of_nat, binary_normalize.
  destruct (Z.of_nat n) eqn:E; [reflexivity| |lia].
  apply round_never_negative.
Qed.

Lemma fold_add_never_negative xs : forall acc,
  never_negative acc = true ->
  Forall (fun x => never_negative x = true) xs ->
  never_negative (fold_left F32.add xs acc) = true.
Proof.
  induction xs as [|x xs IH]; intros acc Hacc Hxs; [exact Hacc|].
  inversion Hxs; subst. cbn [fold_left].
  apply IH; [apply add_never_negative|]; assumption.
Qed.

Lemma average_never_negative xs :
  Forall (fun x => never_negative x = true) xs ->
  never_negative (average xs) = true.
Proof.
  intros Hxs. unfold average. apply div_never_negative.
  - apply fold_add_never_negative; [reflexivity|exact Hxs].
  - apply of_nat_never_negative.
Qed.

Lemma epe_spec_never_negative p g B H W :
  never_negative (epe_spec p g B H W) = true.
Proof.
  unfold epe_spec. apply average_never_negative.
  apply List.Forall_forall. intros x Hx. apply in_map_iff in Hx as (b & <- & _).
  unfold sample_error. apply average_never_negative.
  apply List.Forall_forall. intros y Hy.
  apply in_flat_map in Hy as (h & _ & Hy).
  apply in_map_iff in Hy as (w & <- & _).
  apply sqrt_never_negative, add_never_negative; apply mul_self_never_negative.
Qed.

(** ** Identical finite tensors *)

Lemma of_nat_pos n :
  0 < n ->
  F32.of_nat n = S754_infinity false \/
  exists m e, F32.of_nat n = S754_finite false m e.
Proof.
  intros Hn. unfold F32.of_nat, binary_normalize.
  destruct (Z.of_nat n) eqn:E; try lia.
  apply (binary_round_pos F32.prec F32.emax); [unfold F32.prec; lia|].
  rewrite F32_emin. lia.
Qed.

Lemma div_zero_of_nat n : 0 < n -> F32.div F32.zero (F32.of_nat n) = F32.zero.
Proof.
  intros Hn. destruct (of_nat_pos n Hn) as [->|(m & e & ->)]; reflexivity.
Qed.

Lemma sub_self x : is_finite x = true -> F32.sub x x = F32.zero.
Proof.
  destruct x as [[]| | |s m e]; try discriminate; try reflexivity; intros _.
  unfold F32.sub, SFsub. rewrite Z.sub_diag. reflexivity.
Qed.

Lemma fold_add_zeros xs :
  Forall (fun x => x = F32.zero) xs -> fold_left F32.add xs F32.zero = F32.zero.
Proof.
  induction 1 as [|x xs -> _ IH]; [reflexivity|]. exact IH.
Qed.

Lemma average_zeros xs :
  0 < length xs -> Forall (fun x => x = F32.zero) xs -> average xs = F32.zero.
Proof.
  intros Hl Hz. unfold average, fsum. rewrite fold_add_zeros by exact Hz.
  apply div_zero_of_nat, Hl.
Qed.

Lemma get_in_data t idx :
  wf t -> in_range idx (shape t) -> In (get t idx) (data t).
Proof.
  intros Hwf Hr. unfold get. apply nth_In. rewrite Hwf. apply ravel_lt, Hr.
Qed.

Lemma pixel_error_same t B H W b h w :
  wf t -> all_finite t -> shape t = [B; 2; H; W] ->
  b < B -> h < H -> w < W ->
  pixel_error t t b h w = F32.zero.
Proof.
  intros Hwf Hfin Hs Hb Hh Hw. unfold pixel_error.
  assert (Hf : forall c, c < 2 -> is_finite (get t [b; c; h; w]) = true).
  { intros c Hc. unfold all_finite in Hfin.
    rewrite List.Forall_forall in Hfin. apply Hfin, get_in_data; [exact Hwf|].
    rewrite Hs. solve_range. }
  rewrite !sub_self by (apply Hf; lia). reflexivity.
Qed.

Lemma epe_spec_same t B H W :
  wf t -> all_finite t -> shape t = [B; 2; H; W] ->
  0 < B -> 0 < H -> 0 < W ->
  epe_spec t t B H W = F32.zero.
Proof.
  intros Hwf Hfin Hs HB HH HW. unfold epe_spec.
  apply average_zeros; [rewrite length_map, length_seq; exact HB|].
  apply List.Forall_forall. intros x Hx. apply in_map_iff in Hx as (b & <- & Hb).
  apply in_seq in Hb. unfold sample_error.
  rewrite <- (seq_rows (fun h w => pixel_error t t b h w)).
  apply average_zeros; [rewrite length_map, length_seq; nia|].
  apply List.Forall_forall. intros y Hy. apply in_map_iff in Hy as (q & <- & Hq).
  apply in_seq in Hq.
  apply (pixel_error_same t B H W); try assumption; try lia.
  - apply Nat.Div0.div_lt_upper_bound. lia.
  - apply Nat.mod_upper_bound. lia.
Qed.

(** ** Constant tensors *)

Lemma wf_full s x : wf (full s x).
Proof. unfold wf, full. cbn. apply repeat_length. Qed.

Lemma get_full s x idx : in_range idx s -> get (full s x) idx = x.
Proof.
  intros Hr. apply (repeat_spec (numel s)).
  apply (get_in_data (full s x)); [apply wf_full|exact Hr].
Qed.

Lemma fold_add_nan xs : fold_left F32.add xs S754_nan = S754_nan.
Proof. induction xs as [|x xs IH]; [reflexivity|exact IH]. Qed.

Lemma fsum_nan xs : In S754_nan xs -> fsum xs = S754_nan.
Proof.
  unfold fsum. generalize F32.zero.
  induction xs as [|x xs IH]; intros acc Hin; [destruct Hin|].
  destruct Hin as [->|Hin].
  - cbn [fold_left]. replace (F32.add acc S754_nan) with S754_nan
      by (destruct acc as [| | |]; reflexivity).
    apply fold_add_nan.
  - cbn [fold_left]. apply IH, Hin.
Qed.

Lemma average_nan xs : In S754_nan xs -> average xs = S754_nan.
Proof. intros Hin. unfold average. rewrite fsum_nan by exact Hin. reflexivity. Qed.

Lemma epe_spec_nan p g B H W b h w :
  b < B -> h < H -> w < W ->
  pixel_error p g b h w = S754_nan ->
  epe_spec p g B H W = S754_nan.
Proof.
  intros Hb Hh Hw Hpx. unfold epe_spec. apply average_nan.
  apply in_map_iff. exists b. split; [|apply in_seq; lia].
  unfold sample_error. apply average_nan.
  apply in_flat_map. exists h. split; [apply in_seq; lia|].
  apply in_map_iff. exists w. split; [exact Hpx|apply in_seq; lia].
Qed.

Lemma map_seq_const {A} (f : nat -> A) c n :
  (forall i, i < n -> f i = c) -> map f (seq 0 n) = repeat c n.
Proof.
  intros Hf. induction n as [|n IH]; [reflexivity|].
  rewrite seq_S, map_app, IH by (intros i Hi; apply Hf; lia).
  cbn [map Nat.add]. rewrite Hf by lia.
  change [c] with (repeat c 1). rewrite <- repeat_app.
  f_equal. lia.
Qed.

Lemma epe_spec_const p g B H W c :
  (forall b h w, b < B -> h < H -> w < W -> pixel_error p g b h w = c) ->
  epe_spec p g B H W = average (repeat (average (repeat c (H * W))) B).
Proof.
  intros Hc. unfold epe_spec. f_equal. apply map_seq_const. intros b Hb.
  unfold sample_error.
  rewrite <- (seq_rows (fun h w => pixel_error p g b h w)). f_equal.
  apply map_seq_const. intros q Hq. apply Hc; [exact Hb| |].
  - apply Nat.Div0.div_lt_upper_bound. lia.
  - apply Nat.mod_upper_bound. lia.
Qed.

Lemma fold_add_inf n :
  fold_left F32.add (repeat (S754_infinity false) n) (S754_infinity false)
  = S754_infinity false.
Proof. induction n as [|n IH]; [reflexivity|exact IH]. Qed.

Lemma average_repeat_inf n :
  0 < n ->
  (exists m e, F32.of_nat n = S754_finite false m e) ->
  average (repeat (S754_infinity false) n) = S754_infinity false.
Proof.
  intros Hn (m & e & Hf). unfold average, fsum.
  rewrite repeat_length, Hf. destruct n as [|n]; [lia|].
  cbn [repeat fold_left]. change (F32.add F32.zero (S754_infinity false))
    with (S754_infinity false).
  rewrite fold_add_inf. reflexivity.
Qed.

(** * The claims *)



(** The example evaluates to 1.5: pixel errors 5, 0, 0 and 1. *)
Example epe_example_value :
  compute_epe_error ex_pred ex_gt = inr (scalar (S754_finite false 12582912 (-23))).
Proof. vm_compute. reflexivity. Qed.

(** C3, as stated, fails: shapes [[1, 2, 480, 640]] and [[3, 2, 480, 640]]
    differ, and the subtraction broadcasts and a value is returned. *)
Lemma epe_broadcast_counterexample :
  let pred_flow := full (flow_shape 1) F32.zero in
  let gt_flow := full (flow_shape 3) F32.zero in
  shape pred_flow <> shape gt_flow /\
  exists v, compute_epe_error pred_flow gt_flow = inr v.
Proof.
  cbv zeta. split; [discriminate|].
  pose proof (epe_after_broadcast (full (flow_shape 1) F32.zero)
                (full (flow_shape 3) F32.zero) (flow_shape 3)
                ltac:(vm_compute; reflexivity)) as H.
  cbn [flow_shape length Nat.leb] in H.
  destruct H as (v & Hv & _). exists v. exact Hv.
Qed.

(** C3, amended. [compute_epe_error] fails with the shape-mismatch error
    exactly when the two shapes are not broadcast-compatible, that is when
    some pair of trailing-aligned sizes differs with neither equal to 1;
    shapes that differ only where one size is 1 are broadcast. *)
Theorem epe_shape_mismatch_iff pred_flow gt_flow :
  compute_epe_error pred_flow gt_flow = inl ShapeMismatch <->
  broadcastable (shape pred_flow) (shape gt_flow) = false.
Proof.
  unfold broadcastable. split.
  - intros He.
    destruct (broadcast_shapes (shape pred_flow) (shape gt_flow)) as [s|] eqn:E;
      [|reflexivity].
    pose proof (epe_after_broadcast _ _ _ E) as H.
    destruct (4 <=? length s).
    + destruct H as (v & Hv & _). congruence.
    + congruence.
  - intros Hb.
    destruct (broadcast_shapes (shape pred_flow) (shape gt_flow)) eqn:E;
      [discriminate|].
    apply epe_not_broadcastable, E.
Qed.

(** The pair of shapes named by the specification is rejected. *)
Example epe_rejects_2_vs_3 pred_flow gt_flow :
  shape pred_flow = [2; 2; 480; 640] ->
  shape gt_flow = [3; 2; 480; 640] ->
  compute_epe_error pred_flow gt_flow = inl ShapeMismatch.
Proof.
  intros Hp Hg. apply epe_shape_mismatch_iff. rewrite Hp, Hg.
  vm_compute. reflexivity.
Qed.

(** C7, as stated, fails.  Identical tensors whose entries are [+inf] give
    NaN, which is neither finite nor zero; finite tensors whose difference
    overflows give [+inf]. *)
Lemma epe_not_finite_counterexample :
  let t := full (flow_shape 1) (S754_infinity false) in
  let pred_flow := full (flow_shape 1) f32_max in
  let gt_flow := full (flow_shape 1) (SFopp f32_max) in
  (compute_epe_error t t = inr (scalar S754_nan) /\
   is_finite S754_nan = false /\ S754_nan <> F32.zero) /\
  (all_finite pred_flow /\ all_finite gt_flow /\
   compute_epe_error pred_flow gt_flow = inr (scalar (S754_infinity false)) /\
   is_finite (S754_infinity false) = false).
Proof.
  cbv zeta. split.
  - split; [|split; [reflexivity|discriminate]].
    rewrite (epe_pixelwise _ _ 1 480 640) by reflexivity.
    apply (f_equal (fun x => inr (scalar x))).
    apply (epe_spec_nan _ _ _ _ _ 0 0 0); try lia.
    unfold pixel_error, flow_shape. rewrite !get_full by solve_range.
    reflexivity.
  - split; [apply Forall_forall; intros x Hx;
            apply list_elem_of_In, repeat_spec in Hx; subst; reflexivity|].
    split; [apply Forall_forall; intros x Hx;
            apply list_elem_of_In, repeat_spec in Hx; subst; reflexivity|].
    split; [|reflexivity].
    rewrite (epe_pixelwise _ _ 1 480 640) by reflexivity.
    apply (f_equal (fun x => inr (scalar x))).
    rewrite (epe_spec_const _ _ _ _ _ (S754_infinity false)).
    + rewrite (average_repeat_inf (480 * 640));
        [|lia|vm_compute; eauto].
      vm_compute. reflexivity.
    + intros b h w Hb Hh Hw. unfold pixel_error, flow_shape.
      rewrite !get_full by solve_range. vm_compute. reflexivity.
Qed.

(** C7, amended.  For flow tensors of equal shape [[B, 2, H, W]] the loss is
    a single scalar that is never a negative number: it is NaN or has its
    sign bit clear (it may be [+inf]).  When the two tensors are equal
    elementwise, non-empty and all their entries are finite, the loss is
    exactly [+0]. *)
Theorem epe_never_negative_zero_on_equal pred_flow gt_flow B H W :
  shape pred_flow = [B; 2; H; W] ->
  shape gt_flow = [B; 2; H; W] ->
  exists x,
    compute_epe_error pred_flow gt_flow = inr (scalar x) /\
    never_negative x = true /\
    (data pred_flow = data gt_flow -> wf pred_flow -> all_finite pred_flow ->
     0 < B -> 0 < H -> 0 < W -> x = F32.zero).
Proof.
  intros Hp Hg. exists (epe_spec pred_flow gt_flow B H W).
  split; [apply epe_pixelwise; assumption|].
  split; [apply epe_spec_never_negative|].
  intros Hd Hwf Hfin HB HH HW.
  assert (E : gt_flow = pred_flow)
    by (destruct pred_flow, gt_flow; cbn in *; congruence).
  rewrite E. apply epe_spec_same; assumption.
Qed.

Lemma epe_never_negative_zero_on_equal_witness :
  shape ex_pred = [1; 2; 2; 2] /\
  exists x,
    compute_epe_error ex_pred ex_pred = inr (scalar x) /\
    never_negative x = true /\
    (data ex_pred = data ex_pred -> wf ex_pred -> all_finite ex_pred ->
     0 < 1 -> 0 < 2 -> 0 < 2 -> x = F32.zero).
Proof.
  split; [reflexivity|].
  apply (epe_never_negative_zero_on_equal ex_pred ex_pred 1 2 2); reflexivity.
Defined.

(** ** The monad of the orchestrator *)

Section OrchestratorProperties.
Context `{C : Collaborators}.

Lemma bind_ok {A B} (m : M A) (k : A -> M B) w w' b :
  bind m k w = (w', inr b) ->
  exists a w1, m w = (w1, inr a) /\ k a w1 = (w', inr b).
Proof.
  unfold bind. destruct (m w) as [w1 [e|a]]; [discriminate|]. eauto.
Qed.

Lemma lift_ok {A} (r : result A) w w' a :
  lift r w = (w', inr a) -> r = inr a /\ w' = w.
Proof. unfold lift. intros [= -> ->]. auto. Qed.

Lemma ret_ok {A} (x : A) w w' a :
  ret x w = (w', inr a) -> a = x /\ w' = w.
Proof. unfold ret. intros [= -> ->]. auto. Qed.

(** *** Frames: what a step leaves alone *)

Lemma same_files_refl w : same_files w w.
Proof. repeat split. Qed.

Lemma same_files_trans w1 w2 w3 :
  same_files w1 w2 -> same_files w2 w3 -> same_files w1 w3.
Proof.
  intros (?&?&?&?&?) (?&?&?&?&?). repeat split; congruence.
Qed.

Lemma bind_frame {A B} (m : M A) (k : A -> M B) w :
  same_files w (fst (m w)) ->
  (forall a w1, same_files w1 (fst (k a w1))) ->
  same_files w (fst (bind m k w)).
Proof.
  intros Hm Hk. unfold bind. destruct (m w) as [w1 [e|a]]; cbn in *.
  - exact Hm.
  - eapply same_files_trans; [exact Hm|apply Hk].
Qed.

Lemma foldM_frame {A S} (f : S -> A -> M S) :
  (forall s a w, same_files w (fst (f s a w))) ->
  forall l s w, same_files w (fst (foldM f l s w)).
Proof.
  intros Hf. induction l as [|a l IH]; intros s w; cbn [foldM].
  - apply same_files_refl.
  - apply bind_frame; [apply Hf|]. intros s' w1. apply IH.
Qed.

Lemma print_frame l w : same_files w (fst (print l w)).
Proof. repeat split. Qed.

Lemma lift_frame {A} (r : result A) w : same_files w (fst (lift r w)).
Proof. repeat split. Qed.

Lemma ret_frame {A} (a : A) w : same_files w (fst (ret a w)).
Proof. repeat split. Qed.

Lemma iter_loader_frame l w : same_files w (fst (iter_loader l w)).
Proof.
  unfold iter_loader. destruct (sampler l _) as [order g']. repeat split.
Qed.

Lemma new_model_frame cfg w : same_files w (fst (new_model cfg w)).
Proof.
  unfold new_model. destruct (EVFlowNet cfg _) as [p g']. repeat split.
Qed.

Lemma train_batch_frame st ib w : same_files w (fst (train_batch st ib w)).
Proof.
  destruct st as [[model optimizer] total_loss], ib as [i batch].
  unfold train_batch. destruct (forward _ model _) as [flow flow_dict].
  apply bind_frame; [apply lift_frame|]. intros loss w1.
  apply bind_frame; [apply lift_frame|]. intros v w2.
  apply bind_frame; [apply print_frame|]. intros [] w3.
  destruct (optimizer_step _ _ _) as [model' optimizer']. apply ret_frame.
Qed.

Lemma train_epoch_frame l st epoch w :
  same_files w (fst (train_epoch l st epoch w)).
Proof.
  destruct st as [model optimizer]. unfold train_epoch.
  apply bind_frame; [apply print_frame|]. intros [] w1.
  apply bind_frame; [apply iter_loader_frame|]. intros batches w2.
  apply bind_frame; [apply foldM_frame, train_batch_frame|].
  intros [[model' optimizer'] total_loss] w3.
  apply bind_frame; [apply lift_frame|]. intros mean w4.
  apply bind_frame; [apply print_frame|]. intros [] w5. apply ret_frame.
Qed.

Lemma training_loop_frame n l st w :
  same_files w (fst (training_loop n l st w)).
Proof. apply foldM_frame. intros s a w0. apply train_epoch_frame. Qed.

Lemma infer_batch_pure model flow batch w :
  infer_batch model flow batch w = (w, torch_cat0 flow (predict model batch)).
Proof.
  unfold infer_batch, predict. destruct (forward _ model _) as [flow_ batch_flow].
  reflexivity.
Qed.

Lemma inference_loop_pure model batches : forall flow w,
  foldM (infer_batch model) batches flow w =
    (w, cat_all flow (map (predict model) batches)).
Proof.
  induction batches as [|b batches IH]; intros flow w; [reflexivity|].
  cbn [foldM map cat_all]. unfold bind. rewrite infer_batch_pure.
  destruct (torch_cat0 flow (predict model b)) as [e|flow']; [reflexivity|].
  apply IH.
Qed.

Lemma inference_frame model l w : same_files w (fst (inference model l w)).
Proof.
  unfold inference.
  apply bind_frame; [apply print_frame|]. intros [] w1.
  apply bind_frame; [apply iter_loader_frame|]. intros batches w2.
  apply bind_frame.
  { unfold inference_loop. rewrite inference_loop_pure. apply same_files_refl. }
  intros flow w3.
  apply bind_frame; [apply print_frame|]. intros [] w4. apply ret_frame.
Qed.

Lemma inference_result model l w :
  snd (inference model l w) =
    cat_all empty_1d (map (predict model) (yielded l w)).
Proof.
  unfold inference, bind, print, iter_loader, yielded. cbn [globals].
  destruct (sampler l _) as [order g']. cbn [fst].
  unfold inference_loop. rewrite inference_loop_pure.
  destruct (cat_all _ _); reflexivity.
Qed.
End OrchestratorProperties.

(** ** Concatenation along the batch dimension *)

Lemma torch_cat0_same_tail a b da db tl :
  shape a = da :: tl -> shape b = db :: tl -> tl <> [] ->
  torch_cat0 a b = inr (mkTensor ((da + db) :: tl) (data a ++ data b)).
Proof.
  intros Ha Hb Htl. unfold torch_cat0, is_legacy_empty, shape_eqb.
  rewrite Ha, Hb. destruct tl as [|t tl]; [congruence|].
  rewrite bool_decide_eq_true_2 by reflexivity.
  destruct da as [|da], db as [|db]; reflexivity.
Qed.

Lemma torch_cat0_empty_l b db tl :
  shape b = db :: tl -> tl <> [] -> torch_cat0 empty_1d b = inr b.
Proof.
  intros Hb Htl. unfold torch_cat0, is_legacy_empty. cbn [shape empty_1d].
  rewrite Hb. destruct tl as [|t tl]; [congruence|].
  destruct db; reflexivity.
Qed.

Lemma cat_all_acc tl preds sizes :
  tl <> [] ->
  Forall2 (fun p n => shape p = n :: tl) preds sizes ->
  forall flow N, shape flow = N :: tl ->
  cat_all flow preds =
    inr (mkTensor ((N + sum_list sizes) :: tl)
           (data flow ++ concat (map data preds))).
Proof.
  intros Htl. induction 1 as [|p n preds sizes Hp _ IH]; intros flow N Hf.
  - cbn. rewrite Nat.add_0_r, app_nil_r, <- Hf. destruct flow; reflexivity.
  - cbn [cat_all map concat sum_list fold_right].
    rewrite (torch_cat0_same_tail _ _ _ _ _ Hf Hp Htl). cbn [rbind].
    rewrite (IH _ (N + n)) by reflexivity. cbn [data].
    rewrite <- app_assoc, Nat.add_assoc. reflexivity.
Qed.

Lemma cat_all_from_empty tl preds sizes :
  tl <> [] -> preds <> [] ->
  Forall2 (fun p n => shape p = n :: tl) preds sizes ->
  cat_all empty_1d preds =
    inr (mkTensor (sum_list sizes :: tl) (concat (map data preds))).
Proof.
  intros Htl Hne HF. destruct HF as [|p n preds sizes Hp HF]; [congruence|].
  cbn [cat_all]. rewrite (torch_cat0_empty_l _ _ _ Hp Htl). cbn [rbind].
  rewrite (cat_all_acc tl preds sizes Htl HF p n Hp). reflexivity.
Qed.

Lemma rows_app_l {A} (d1 d2 : list A) n a i :
  length d1 = a * n -> i < a ->
  take n (drop (i * n) (d1 ++ d2)) = take n (drop (i * n) d1).
Proof.
  intros Hl Hi. rewrite drop_app_le by nia.
  apply take_app_le. rewrite length_drop. nia.
Qed.

Lemma rows_app_r {A} (d1 d2 : list A) n a j :
  length d1 = a * n ->
  take n (drop ((a + j) * n) (d1 ++ d2)) = take n (drop (j * n) d2).
Proof.
  intros Hl. rewrite drop_app_ge by nia. do 2 f_equal. nia.
Qed.

Lemma rows_concat {A} n (datas : list (list A)) sizes :
  Forall2 (fun d s => length d = s * n) datas sizes ->
  forall k d s j,
    datas !! k = Some d -> sizes !! k = Some s -> j < s ->
    take n (drop ((sum_list (take k sizes) + j) * n) (concat datas))
    = take n (drop (j * n) d).
Proof.
  induction 1 as [|d0 s0 datas sizes Hd _ IH]; intros k d s j Hk Hs Hj.
  - rewrite lookup_nil in Hk. discriminate.
  - destruct k as [|k]; cbn in Hk, Hs.
    + injection Hk as <-. injection Hs as <-.
      cbn [take sum_list fold_right Nat.add concat].
      apply (rows_app_l _ _ _ s0); assumption.
    + cbn [take sum_list fold_right concat].
      change (fold_right Nat.add 0 (take k sizes)) with (sum_list (take k sizes)).
      rewrite <- Nat.add_assoc, (rows_app_r _ _ _ s0) by exact Hd.
      apply (IH k d s j); assumption.
Qed.

Section InferenceProperties.
Context `{C : Collaborators}.

Lemma inference_loop_spec model batches sizes tl w :
  tl <> [] -> batches <> [] ->
  Forall2 (fun b n => shape (predict model b) = n :: tl /\
                      wf (predict model b)) batches sizes ->
  exists flow,
    inference_loop model batches w = (w, inr flow) /\
    shape flow = sum_list sizes :: tl /\
    data flow = concat (map (fun b => data (predict model b)) batches) /\
    forall k b n j,
      batches !! k = Some b -> sizes !! k = Some n -> j < n ->
      row flow (sum_list (take k sizes) + j) = row (predict model b) j.
Proof.
  intros Htl Hne HF. unfold inference_loop. rewrite inference_loop_pure.
  assert (HF1 : Forall2 (fun p n => shape p = n :: tl)
                  (map (predict model) batches) sizes).
  { clear Hne. induction HF as [|b n bs ss [Hs _] _ IH]; constructor; auto. }
  assert (HF2 : Forall2 (fun d s => length d = s * numel tl)
                  (map data (map (predict model) batches)) sizes).
  { clear Hne HF1. induction HF as [|b n bs ss [Hs Hw] _ IH]; constructor; auto.
    unfold wf in Hw. rewrite Hw, Hs. reflexivity. }
  rewrite (cat_all_from_empty tl _ sizes Htl) by
    (first [exact HF1 | destruct batches; [congruence|discriminate]]).
  eexists. split; [reflexivity|]. cbn [shape data].
  split; [reflexivity|]. split; [rewrite map_map; reflexivity|].
  intros k b n j Hk Hs Hj. unfold row. cbn [shape data tail].
  assert (Hb : shape (predict model b) = n :: tl).
  { eapply Forall2_lookup_lr in HF as [Hb _]; eauto. }
  rewrite Hb. cbn [tail].
  apply (rows_concat _ _ _ HF2 k _ n j); [|exact Hs|exact Hj].
  rewrite !list_lookup_fmap, Hk. reflexivity.
Qed.

End InferenceProperties.

(** C4, as stated, fails on the empty sequence of batches: the buffer stays
    the one-dimensional empty tensor, of shape [[0]] and not
    [[0, 2, 480, 640]]. *)
Lemma inference_no_batch_counterexample :
  let w := toy_world 480 640 0 0 0 in
  exists flow,
    inference_loop (C := toy 480 640 0 0) 7 [] w = (w, inr flow) /\
    shape flow <> [sum_list []; 2; 480; 640].
Proof.
  cbv zeta. exists empty_1d. split; [reflexivity|discriminate].
Qed.

(** C4, amended.  For every non-empty sequence of test batches whose
    predictions have shapes [[n_i, 2, 480, 640]], the inference loop appends
    each batch's predictions to the running buffer along the batch
    dimension in encounter order: the final tensor has shape
    [[N, 2, 480, 640]] with [N] the total number of samples, its elements
    are those of the predictions in order, and row [n_1 + ... + n_(k-1) + j]
    is row [j] of the prediction of batch [k]. *)
Theorem inference_appends_in_order `{C : Collaborators}
    model batches sizes w :
  batches <> [] ->
  Forall2 (fun b n => shape (predict model b) = [n; 2; 480; 640] /\
                      wf (predict model b)) batches sizes ->
  exists flow,
    inference_loop model batches w = (w, inr flow) /\
    shape flow = [sum_list sizes; 2; 480; 640] /\
    data flow = concat (map (fun b => data (predict model b)) batches) /\
    forall k b n j,
      batches !! k = Some b -> sizes !! k = Some n -> j < n ->
      row flow (sum_list (take k sizes) + j) = row (predict model b) j.
Proof.
  intros Hne HF. apply inference_loop_spec; [discriminate|exact Hne|exact HF].
Qed.

Lemma inference_appends_in_order_witness :
  let b1 := toy_batch 480 640 [0; 1] in
  let b2 := toy_batch 480 640 [2; 3; 4] in
  let w := toy_world 480 640 0 5 0 in
  exists flow,
    inference_loop (C := toy 480 640 0 5) 7 [b1; b2] w = (w, inr flow) /\
    shape flow = [5; 2; 480; 640] /\
    row flow 0 = row (predict (C := toy 480 640 0 5) 7 b1) 0 /\
    row flow 1 = row (predict (C := toy 480 640 0 5) 7 b1) 1 /\
    row flow 2 = row (predict (C := toy 480 640 0 5) 7 b2) 0 /\
    row flow 3 = row (predict (C := toy 480 640 0 5) 7 b2) 1 /\
    row flow 4 = row (predict (C := toy 480 640 0 5) 7 b2) 2.
Proof.
  cbv zeta.
  destruct (inference_appends_in_order (C := toy 480 640 0 5) 7
              [toy_batch 480 640 [0; 1]; toy_batch 480 640 [2; 3; 4]]
              [2; 3] (toy_world 480 640 0 5 0))
    as (flow & Hrun & Hshape & _ & Hrow).
  - discriminate.
  - repeat (apply List.Forall2_cons;
              [split; [reflexivity|
                 unfold predict, forward, toy, toy_forward; cbn [fst];
                 apply wf_tabulate]|]).
    apply List.Forall2_nil.
  - exists flow. split; [exact Hrun|]. split; [exact Hshape|].
    split; [exact (Hrow 0 _ 2 0 eq_refl eq_refl ltac:(lia))|].
    split; [exact (Hrow 0 _ 2 1 eq_refl eq_refl ltac:(lia))|].
    split; [exact (Hrow 1 _ 3 0 eq_refl eq_refl ltac:(lia))|].
    split; [exact (Hrow 1 _ 3 1 eq_refl eq_refl ltac:(lia))|].
    exact (Hrow 1 _ 3 2 eq_refl eq_refl ltac:(lia)).
Defined.

(** The scenario of the specification: batches of sizes 2 then 3. *)
Example inference_two_then_three `{C : Collaborators} model b1 b2 w :
  shape (predict model b1) = [2; 2; 480; 640] -> wf (predict model b1) ->
  shape (predict model b2) = [3; 2; 480; 640] -> wf (predict model b2) ->
  exists flow,
    inference_loop model [b1; b2] w = (w, inr flow) /\
    shape flow = [5; 2; 480; 640] /\
    (forall j, j < 2 -> row flow j = row (predict model b1) j) /\
    (forall j, j < 3 -> row flow (2 + j) = row (predict model b2) j).
Proof.
  intros Hs1 Hw1 Hs2 Hw2.
  destruct (inference_loop_spec model [b1; b2] [2; 3] [2; 480; 640] w)
    as (flow & Hrun & Hshape & _ & Hrow);
    [discriminate|discriminate|repeat constructor; assumption|].
  exists flow. split; [exact Hrun|]. split; [exact Hshape|]. split.
  - intros j Hj. exact (Hrow 0 b1 2 j eq_refl eq_refl Hj).
  - intros j Hj. exact (Hrow 1 b2 3 j eq_refl eq_refl Hj).
Qed.

(** ** The steps of a successful run of [main] *)

Section MainProperties.
Context `{C : Collaborators}.

Lemma main_inv args w w' locals :
  main args w = (w', inr locals) ->
  exists train_data test_data model0 w1 optimizer w2 w3 state w4,
    make_train_loader args = inr train_data /\
    make_test_loader args = inr test_data /\
    new_model (train args) (seeded args w) = (w1, inr model0) /\
    training_loop (epochs args) train_data (model0, Adam args model0) w1
      = (w2, inr (trained locals, optimizer)) /\
    save_checkpoint (trained locals) w2 = (w3, inr (saved_path locals)) /\
    torch_load load_path w3 = (w3, inr state) /\
    load_state_dict (trained locals) state = inr (restored locals) /\
    inference (restored locals) test_data w3 = (w4, inr (submission locals)) /\
    save_optical_flow_to_npy (submission locals) submission_name w4
      = (w', inr tt).
Proof.
  unfold main. intros H.
  apply bind_ok in H as ([] & w0 & H0 & H). injection H0 as <-.
  apply bind_ok in H as (train_data & ? & [Htr ->]%lift_ok & H).
  apply bind_ok in H as (test_data & ? & [Hte ->]%lift_ok & H).
  apply bind_ok in H as (model0 & w1 & Hnew & H).
  apply bind_ok in H as ([model optimizer] & w2 & Htrain & H).
  apply bind_ok in H as (model_path & w3 & Hsave & H).
  apply bind_ok in H as (state & w3' & Hload & H).
  assert (w3' = w3) as ->.
  { unfold torch_load in Hload.
    destruct (checkpoints w3 !! _); [|discriminate].
    injection Hload as <- _. reflexivity. }
  apply bind_ok in H as (model' & ? & [Hlsd ->]%lift_ok & H).
  apply bind_ok in H as (flow & w4 & Hinf & H).
  apply bind_ok in H as ([] & w5 & Hnpy & H).
  apply ret_ok in H as [-> ->]. cbn [trained saved_path restored submission].
  exists train_data, test_data, model0, w1, optimizer, w2, w3, state, w4.
  repeat (split; [assumption|]). assumption.
Qed.




Lemma resolve_load_path d : resolve d load_path = load_path.
Proof. reflexivity. Qed.

Lemma resolve_submission d :
  resolve d (submission_name +:+ ".npy") = submission_file.
Proof. reflexivity. Qed.


End MainProperties.




(** ** Chunking a pass into batches *)

Lemma chunks_fuel_length {A} bs : 0 < bs -> forall fuel (l : list A),
  length l <= fuel ->
  length (chunks_fuel fuel bs l) = (length l + bs - 1) / bs.
Proof.
  intros Hbs. induction fuel as [|fuel IH]; intros l Hl.
  - destruct l; [|cbn in Hl; lia]. cbn. rewrite Nat.div_small; lia.
  - destruct l as [|a l]; [cbn; rewrite Nat.div_small; lia|].
    cbn [chunks_fuel length]. rewrite IH by (rewrite length_drop; cbn in *; lia).
    rewrite length_drop. cbn [length].
    destruct (Nat.le_gt_cases (S (length l)) bs) as [Hle|Hgt].
    + replace (S (length l) - bs) with 0 by lia.
      rewrite (Nat.div_small (0 + bs - 1)) by lia.
      apply (Nat.div_unique _ _ 1 (S (length l) - 1)); lia.
    + replace (S (length l) + bs - 1) with ((S (length l) - bs + bs - 1) + 1 * bs)
        by lia.
      rewrite Nat.div_add by lia. lia.
Qed.

Lemma chunks_length {A} bs (l : list A) :
  0 < bs -> length (chunks bs l) = (length l + bs - 1) / bs.
Proof. intros Hbs. apply chunks_fuel_length; [exact Hbs|lia]. Qed.

Lemma chunks_fuel_concat {A} bs : 0 < bs -> forall fuel (l : list A),
  length l <= fuel -> concat (chunks_fuel fuel bs l) = l.
Proof.
  intros Hbs. induction fuel as [|fuel IH]; intros l Hl.
  - destruct l; [reflexivity|cbn in Hl; lia].
  - destruct l as [|a l]; [reflexivity|].
    cbn [chunks_fuel concat].
    rewrite IH by (rewrite length_drop; cbn in *; lia).
    apply take_drop.
Qed.

Lemma chunks_concat {A} bs (l : list A) : 0 < bs -> concat (chunks bs l) = l.
Proof. intros Hbs. apply chunks_fuel_concat; [exact Hbs|lia]. Qed.

Lemma lookup_all_seq {A} (l : list A) :
  omap (fun i => l !! i) (seq 0 (length l)) = l.
Proof.
  induction l as [|a l IH]; [reflexivity|].
  cbn [length seq omap lookup]. cbn. f_equal.
  rewrite <- seq_shift. rewrite <- IH at 2.
  change (map S ?l) with (S <$> l). clear IH.
  generalize (seq 0 (length l)). intros s.
  induction s as [|i s IHs]; [reflexivity|].
  cbn. destruct (l !! i); cbn; rewrite IHs; reflexivity.
Qed.

Lemma loader_len_zero {Sample} (l : DataLoader Sample) :
  0 < batch_size l -> (loader_len l = 0 <-> dataset l = []).
Proof.
  intros Hbs. unfold loader_len. split.
  - intros H0. destruct (dataset l) as [|a d]; [reflexivity|]. exfalso.
    cbn [length] in H0.
    assert (1 <= (S (length d) + batch_size l - 1) / batch_size l); [|lia].
    apply Nat.div_le_lower_bound; lia.
  - intros ->. cbn. apply Nat.div_small. lia.
Qed.

Lemma new_loader_ok {Sample} (ds : list Sample) bs sh l :
  new_loader ds bs sh = inr l ->
  dataset l = ds /\ batch_size l = bs /\ shuffle l = sh /\ 0 < bs.
Proof.
  unfold new_loader. destruct (bs =? 0) eqn:E; [discriminate|].
  intros [= <-]. apply Nat.eqb_neq in E. cbn. repeat split. lia.
Qed.

(** ** The epoch loop *)

Section TrainingProperties.
Context `{C : Collaborators}.

Lemma train_batch_ok model optimizer total_loss i batch w w' st' :
  train_batch (model, optimizer, total_loss) (i, batch) w = (w', inr st') ->
  exists v,
    stdout w' = stdout w ++ [BatchLoss i v] /\
    snd st' = py_add_float total_loss v.
Proof.
  unfold train_batch. destruct (forward _ model _) as [flow flow_dict].
  intros H.
  apply bind_ok in H as (loss & ? & [_ ->]%lift_ok & H).
  apply bind_ok in H as (v & ? & [_ ->]%lift_ok & H).
  apply bind_ok in H as ([] & w1 & Hp & H).
  destruct (optimizer_step _ _ _) as [model' optimizer'].
  apply ret_ok in H as [-> ->].
  unfold print in Hp. injection Hp as <-. exists v. split; reflexivity.
Qed.

Lemma train_batches_log batches : forall k model optimizer total_loss w w' st',
  foldM train_batch (zip (seq k (length batches)) batches)
    (model, optimizer, total_loss) w = (w', inr st') ->
  exists losses,
    length losses = length batches /\
    stdout w' = stdout w ++ zip_with BatchLoss (seq k (length batches)) losses /\
    snd st' = fold_left py_add_float losses total_loss.
Proof.
  induction batches as [|b batches IH];
    intros k model optimizer total_loss w w' st' H.
  - apply ret_ok in H as [-> ->]. exists []. cbn. rewrite app_nil_r. auto.
  - cbn [length seq zip zip_with foldM] in H.
    apply bind_ok in H as ([[model1 optimizer1] total1] & w1 & H1 & H).
    apply train_batch_ok in H1 as (v & Hout1 & Htot1). cbn [snd] in Htot1.
    apply IH in H as (losses & Hlen & Hout & Htot).
    exists (v :: losses). cbn [length seq zip_with fold_left].
    split; [lia|]. split.
    + rewrite Hout, Hout1, <- app_assoc. reflexivity.
    + rewrite Htot, Htot1. reflexivity.
Qed.

Lemma to_float_fold losses : forall v,
  to_float (fold_left py_add_float losses v)
  = fold_left F64.add losses (to_float v).
Proof.
  induction losses as [|x losses IH]; intros v; [reflexivity|].
  cbn [fold_left]. rewrite IH. reflexivity.
Qed.

Lemma epoch_mean_ok losses n v :
  epoch_mean losses n = inr v -> v = mean_of_losses losses n.
Proof.
  unfold epoch_mean, py_truediv, mean_of_losses.
  destruct n as [|n]; [discriminate|]. intros [= <-].
  rewrite to_float_fold. reflexivity.
Qed.

Lemma iter_loader_ok l w :
  iter_loader l w = (fst (iter_loader l w), inr (yielded l w)) /\
  stdout (fst (iter_loader l w)) = stdout w.
Proof.
  unfold iter_loader, yielded. destruct (sampler l _) as [order g'].
  split; reflexivity.
Qed.

Lemma train_epoch_log train_data st epoch w w' st' :
  train_epoch train_data st epoch w = (w', inr st') ->
  exists losses mean,
    length losses = length (yielded train_data w) /\
    epoch_mean losses (loader_len train_data) = inr mean /\
    stdout w' = stdout w ++ [OnEpoch (epoch + 1)]
                  ++ zip_with BatchLoss (seq 0 (length losses)) losses
                  ++ [EpochLoss (epoch + 1) mean].
Proof.
  destruct st as [model optimizer]. unfold train_epoch. intros H.
  apply bind_ok in H as ([] & w1 & Hp1 & H).
  unfold print in Hp1. injection Hp1 as <-.
  apply bind_ok in H as (batches & w2 & Hit & H).
  match type of Hit with iter_loader _ ?w0 = _ =>
    destruct (iter_loader_ok train_data w0) as [Hit' Hout2] end.
  rewrite Hit' in Hit. injection Hit as <- <-.
  apply bind_ok in H as ([[model' optimizer'] total_loss] & w3 & Hfold & H).
  apply train_batches_log in Hfold as (losses & Hlen & Hout3 & Htot).
  cbn [snd] in Htot.
  apply bind_ok in H as (mean & ? & [Hmean ->]%lift_ok & H).
  apply bind_ok in H as ([] & w5 & Hp2 & H).
  unfold print in Hp2. injection Hp2 as <-.
  apply ret_ok in H as [-> ->].
  exists losses, mean. split; [exact Hlen|]. split.
  - unfold epoch_mean. rewrite <- Htot. exact Hmean.
  - cbn [stdout]. rewrite Hout3, Hout2. cbn [stdout].
    rewrite Hlen, <- !app_assoc. reflexivity.
Qed.

Lemma yielded_length l w :
  0 < batch_size l ->
  length (visited l w) = length (dataset l) ->
  length (yielded l w) = loader_len l.
Proof.
  intros Hbs Hv. unfold yielded, batches_of, loader_len.
  rewrite length_map, chunks_length by exact Hbs.
  unfold visited in Hv. rewrite Hv. reflexivity.
Qed.

Lemma visited_in_order l w :
  shuffle l = false -> visited l w = dataset l.
Proof.
  intros Hs. unfold visited, sampler, fetch. rewrite Hs. cbn [fst].
  apply lookup_all_seq.
Qed.

Lemma yielded_nothing l w : dataset l = [] -> yielded l w = [].
Proof.
  intros Hd. unfold yielded, batches_of, fetch. rewrite Hd.
  generalize (fst (sampler l (torch_cpu (globals w)))). intros order.
  replace (omap (fun i => @nil Sample !! i) order) with (@nil Sample);
    [reflexivity|].
  induction order as [|i order IH]; [reflexivity|]. cbn. exact IH.
Qed.

Lemma train_epoch_empty train_data st epoch w :
  0 < batch_size train_data -> dataset train_data = [] ->
  snd (train_epoch train_data st epoch w) = inl ZeroDivisionError.
Proof.
  intros Hbs Hd. destruct st as [model optimizer]. unfold train_epoch.
  unfold bind at 1. cbn [print].
  unfold bind at 1.
  match goal with |- context [iter_loader _ ?w0] =>
    destruct (iter_loader_ok train_data w0) as [Hit _];
    rewrite Hit, (yielded_nothing _ _ Hd) end.
  cbn [enumerate length seq zip zip_with foldM].
  unfold bind at 1. cbn [ret].
  unfold bind at 1. unfold lift.
  replace (loader_len train_data) with 0
    by (symmetry; apply loader_len_zero; assumption).
  reflexivity.
Qed.
End TrainingProperties.

(** C6.  At the end of every epoch that completes, the loop reports, after
    the per-batch losses it printed, their sum accumulated from 0 divided by
    [len(train_data)], the number of batches of the training loader, which
    is the number of batches whenever the pass visits every sample; for the
    losses [0.4], [0.6], [0.5] the report is [0.5]. *)
Theorem epoch_report_is_mean `{C : Collaborators}
    train_data st epoch w w' st' :
  train_epoch train_data st epoch w = (w', inr st') ->
  exists losses,
    length losses = length (yielded train_data w) /\
    stdout w' = stdout w ++ [OnEpoch (epoch + 1)]
                  ++ zip_with BatchLoss (seq 0 (length losses)) losses
                  ++ [EpochLoss (epoch + 1)
                        (mean_of_losses losses (loader_len train_data))] /\
    (0 < batch_size train_data ->
     length (visited train_data w) = length (dataset train_data) ->
     loader_len train_data = length losses) /\
    epoch_mean [py_0_4; py_0_6; py_0_5] 3 = inr py_0_5 /\
    mean_of_losses [py_0_4; py_0_6; py_0_5] 3 = py_0_5.
Proof.
  intros H. apply train_epoch_log in H as (losses & mean & Hlen & Hmean & Hout).
  apply epoch_mean_ok in Hmean. subst mean.
  exists losses. split; [exact Hlen|]. split; [exact Hout|].
  split; [|split; vm_compute; reflexivity].
  intros Hbs Hv. rewrite Hlen. symmetry. apply yielded_length; assumption.
Qed.

Lemma epoch_report_is_mean_witness :
  let T := toy 1 1 3 5 in
  let train_data := mkLoader [0; 1; 2] 2 false in
  let w := toy_world 1 1 3 5 0 in
  exists w' st' losses,
    train_epoch (C := T) train_data (0, tt) 0 w = (w', inr st') /\
    length losses = 2 /\
    stdout w' = [OnEpoch 1] ++ zip_with BatchLoss [0; 1] losses
                  ++ [EpochLoss 1 (mean_of_losses losses 2)].
Proof.
  cbv zeta.
  destruct (train_epoch (C := toy 1 1 3 5) (mkLoader [0; 1; 2] 2 false)
              (0, tt) 0 (toy_world 1 1 3 5 0)) as [w' [e|st']] eqn:E.
  - assert (H : is_ok (snd (train_epoch (C := toy 1 1 3 5)
                              (mkLoader [0; 1; 2] 2 false) (0, tt) 0
                              (toy_world 1 1 3 5 0))) = true)
      by (vm_compute; reflexivity).
    rewrite E in H. discriminate H.
  - destruct (epoch_report_is_mean (C := toy 1 1 3 5) _ _ _ _ _ _ E)
      as (losses & Hlen & Hout & _).
    exists w', st', losses. split; [reflexivity|].
    split; [exact Hlen|]. rewrite Hout, Hlen. reflexivity.
Defined.

(** C9.  The end-of-epoch report divides by [len(train_data)] with no
    guard: the division raises exactly when the training loader has no
    batch, and with an empty training loader the report of every epoch, and
    so a run of at least one epoch, raises the division-by-zero error. *)
Theorem epoch_mean_division `{C : Collaborators} train_data :
  0 < batch_size train_data ->
  (forall total_loss,
     raises (py_truediv total_loss (loader_len train_data)) ZeroDivisionError
     <-> dataset train_data = []) /\
  (dataset train_data = [] ->
   forall st epoch w,
     raises (snd (train_epoch train_data st epoch w)) ZeroDivisionError) /\
  (dataset train_data = [] ->
   forall args w test_data,
     make_train_loader args = inr train_data ->
     make_test_loader args = inr test_data ->
     0 < epochs args ->
     raises (snd (main args w)) ZeroDivisionError).
Proof.
  intros Hbs. split; [|split].
  - intros total_loss. rewrite <- (loader_len_zero _ Hbs).
    unfold py_truediv. destruct (loader_len train_data); cbn; split;
      intros H; try reflexivity; try contradiction; discriminate.
  - intros Hd st epoch w. rewrite train_epoch_empty by assumption. reflexivity.
  - intros Hd args w test_data Htr Hte Hep. unfold main.
    unfold bind at 1. cbn [set_globals].
    unfold bind at 1. rewrite Htr. cbn [lift].
    unfold bind at 1. rewrite Hte. cbn [lift].
    unfold bind at 1. unfold new_model.
    destruct (EVFlowNet _ _) as [model g'].
    unfold bind at 1. unfold training_loop.
    destruct (epochs args) as [|n]; [lia|].
    cbn [seq foldM]. unfold bind at 1.
    match goal with |- context [train_epoch ?l ?s ?e ?w0] =>
      pose proof (train_epoch_empty l s e w0 Hbs Hd) as Hraise;
      destruct (train_epoch l s e w0) as [w1 r] end.
    cbn [snd] in Hraise. subst r. reflexivity.
Qed.

Lemma epoch_mean_division_witness :
  let T := toy 1 1 0 5 in
  let train_data := @mkLoader nat [] 2 false in
  0 < batch_size train_data /\
  raises (py_truediv (PyInt 0) (loader_len train_data)) ZeroDivisionError /\
  raises (snd (main (C := T) (toy_args false 2) (toy_world 1 1 0 5 0)))
    ZeroDivisionError.
Proof.
  cbv zeta.
  destruct (epoch_mean_division (C := toy 1 1 0 5) (@mkLoader nat [] 2 false))
    as (H1 & _ & H3); [cbn; lia|].
  split; [cbn; lia|]. split.
  - apply H1. reflexivity.
  - apply (H3 eq_refl (toy_args false 2) (toy_world 1 1 0 5 0)
             (mkLoader (seq 0 5) 2 false)); [reflexivity|reflexivity|cbn; lia].
Defined.

(** The literals are the correctly rounded quotients 4/10, 6/10 and 5/10. *)
Example py_literals :
  F64.div (F64.of_Z 4) (F64.of_Z 10) = py_0_4 /\
  F64.div (F64.of_Z 6) (F64.of_Z 10) = py_0_6 /\
  F64.div (F64.of_Z 5) (F64.of_Z 10) = py_0_5.
Proof. repeat split; vm_compute; reflexivity. Qed.

(** C10.  When the test loader yields no batch, the buffer handed to the
    submission writer is the initial one-dimensional empty tensor: the
    persisted array has shape [[0]], not [[0, 2, 480, 640]]. *)
Theorem no_test_batch_submission_is_1d `{C : Collaborators}
    args w w' locals :
  main args w = (w', inr locals) ->
  (forall l w0, make_test_loader args = inr l -> yielded l w0 = []) ->
  submission locals = empty_1d /\
  shape (submission locals) = [0] /\
  shape (submission locals) <> [0; 2; 480; 640] /\
  arrays w' !! submission_file = Some (submission locals).
Proof.
  intros Hmain Hnone.
  apply main_inv in Hmain
    as (train_data & test_data & model0 & w1 & optimizer & w2 & w3 & state & w4
        & _ & Hte & _ & _ & _ & _ & _ & Hinf & Hnpy).
  pose proof (inference_result (restored locals) test_data w3) as Hres.
  rewrite Hinf, (Hnone _ _ Hte) in Hres. cbn in Hres.
  injection Hres as Hflow. rewrite Hflow.
  split; [reflexivity|]. split; [reflexivity|]. split; [discriminate|].
  unfold save_optical_flow_to_npy in Hnpy. injection Hnpy as <-.
  cbn [arrays]. rewrite resolve_submission, <- Hflow. apply lookup_insert_eq.
Qed.

Lemma no_test_batch_submission_is_1d_witness :
  let w := toy_world 1 1 3 0 0 in
  exists w' locals,
    main (C := toy 1 1 3 0) (toy_args false 2) w = (w', inr locals) /\
    shape (submission locals) = [0] /\
    arrays w' !! submission_file = Some (submission locals).
Proof.
  cbv zeta.
  destruct (main (C := toy 1 1 3 0) (toy_args false 2) (toy_world 1 1 3 0 0))
    as [w' [e|locals]] eqn:E.
  - assert (H : is_ok (snd (main (C := toy 1 1 3 0) (toy_args false 2)
                              (toy_world 1 1 3 0 0))) = true)
      by (vm_compute; reflexivity).
    rewrite E in H. discriminate H.
  - exists w', locals. split; [reflexivity|].
    destruct (no_test_batch_submission_is_1d (C := toy 1 1 3 0) _ _ _ _ E)
      as (_ & H2 & _ & H4).
    + intros l w0 Hl. injection Hl as <-. reflexivity.
    + split; [exact H2|exact H4].
Defined.

(** C5, as stated, fails: with [data_loader.test.shuffle] set, the test
    loader shuffles, the pass visits the samples in the permuted order and
    the first row of the submission is the prediction for the last sample. *)
Lemma test_loader_shuffles_counterexample :
  let T := toy 1 1 3 5 in
  let w := toy_world 1 1 3 5 0 in
  returns (make_test_loader (C := T) (toy_args true 1))
    (fun l => shuffle l = true /\
              visited (C := T) l w = [4; 3; 2; 1; 0] /\
              visited (C := T) l w <> dataset l) /\
  returns (snd (main (C := T) (toy_args true 1) w)) (fun shuffled =>
  returns (snd (main (C := T) (toy_args false 1) w)) (fun in_order =>
    row (submission shuffled) 0 = row (submission in_order) 4 /\
    row (submission shuffled) 0 <> row (submission in_order) 0)).
Proof.
  cbv zeta. split; vm_compute; repeat split; discriminate.
Qed.

(** C5, amended.  The inference pass iterates the test loader once.  The
    loader shuffles as [data_loader.test.shuffle] says: when the option is
    off, the pass visits the test samples in dataset order, each once,
    whatever the state of the generators; when it is on, it visits them in
    the order of the permutation the sampler draws. *)
Theorem test_loader_order `{C : Collaborators} args l :
  make_test_loader args = inr l ->
  shuffle l = test_shuffle args /\
  dataset l = get_test_dataset (dataset_path args) /\
  (forall model w,
     snd (inference model l w)
     = cat_all empty_1d (map (predict model) (yielded l w))) /\
  (forall w,
     yielded l w = map train_collate (chunks (batch_size l) (visited l w))) /\
  (test_shuffle args = false ->
   forall w, visited l w = dataset l /\
             concat (chunks (batch_size l) (visited l w)) = dataset l) /\
  (test_shuffle args = true ->
   forall w, visited l w
             = fetch l (fst (randperm (torch_cpu (globals w))
                               (length (dataset l))))).
Proof.
  intros Hl. apply new_loader_ok in Hl as (Hd & Hbs & Hsh & Hpos).
  split; [exact Hsh|]. split; [exact Hd|].
  split; [intros model w; apply inference_result|].
  split; [reflexivity|]. split.
  - intros Hoff w. rewrite <- Hsh in Hoff.
    rewrite (visited_in_order l w Hoff). split; [reflexivity|].
    apply chunks_concat. rewrite Hbs. exact Hpos.
  - intros Hon w. rewrite <- Hsh in Hon. unfold visited, sampler.
    rewrite Hon. reflexivity.
Qed.

Lemma test_loader_order_witness :
  let T := toy 1 1 3 5 in
  let l := mkLoader [0; 1; 2; 3; 4] 2 false in
  make_test_loader (C := T) (toy_args false 1) = inr l /\
  forall w, visited (C := T) l w = [0; 1; 2; 3; 4].
Proof.
  cbv zeta. split; [reflexivity|].
  destruct (test_loader_order (C := toy 1 1 3 5) (toy_args false 1)
              (mkLoader [0; 1; 2; 3; 4] 2 false) eq_refl)
    as (_ & _ & _ & _ & Hoff & _).
  intros w. exact (proj1 (Hoff eq_refl w)).
Defined.



(** * Further properties of [compute_epe_error] *)

Lemma epe_of_tabulate D B H W :
  rbind (torch_norm_p2 1 (tabulate [B; 2; H; W] D)) (fun n =>
  rbind (torch_mean [1; 2] n) (fun m => torch_mean [0] m))
  = inr (scalar (epe_of D B H W)).
Proof.
  unfold torch_norm_p2, torch_mean.
  rewrite (reduce_dim1_4d _ _ B 2 H W) by reflexivity. cbn [rbind].
  rewrite (reduce_dim12_3d _ _ B H W) by reflexivity. cbn [rbind].
  rewrite (reduce_dim0_1d _ _ B) by reflexivity.
  apply (f_equal (fun x => inr (scalar x))). unfold epe_of. f_equal.
  apply map_ext_in. intros b Hb. apply in_seq in Hb.
  rewrite get_tabulate by solve_range. cbn [hd]. f_equal.
  rewrite <- (seq_rows (fun h w => pixel_norm_of D b h w)).
  apply map_ext_in. intros q Hq. apply in_seq in Hq.
  assert (HW : W <> 0) by (intros ->; lia).
  assert (Hh : q / W < H) by (apply Nat.Div0.div_lt_upper_bound; lia).
  assert (Hw : q mod W < W) by (apply Nat.mod_upper_bound, HW).
  rewrite get_tabulate by solve_range. cbn [hd tail seq map].
  rewrite !get_tabulate by solve_range.
  rewrite norm2_pair. reflexivity.
Qed.

Lemma epe_of_broadcast pred_flow gt_flow B H W :
  broadcast_shapes (shape pred_flow) (shape gt_flow) = Some [B; 2; H; W] ->
  compute_epe_error pred_flow gt_flow
  = inr (scalar (epe_of (diff_at pred_flow gt_flow) B H W)).
Proof.
  intros Hb. unfold compute_epe_error, torch_sub, broadcast_op. rewrite Hb.
  cbn [rbind]. apply epe_of_tabulate.
Qed.

Lemma epe_of_ext D D' B H W :
  (forall b c h w, b < B -> c < 2 -> h < H -> w < W ->
                   F32.mul (D [b; c; h; w]) (D [b; c; h; w])
                   = F32.mul (D' [b; c; h; w]) (D' [b; c; h; w])) ->
  epe_of D B H W = epe_of D' B H W.
Proof.
  intros HD. unfold epe_of. f_equal.
  apply map_ext_in. intros b Hb. apply in_seq in Hb. f_equal.
  rewrite <- !(seq_rows (pixel_norm_of _ b)).
  apply map_ext_in. intros q Hq. apply in_seq in Hq.
  assert (HW : W <> 0) by (intros ->; lia).
  assert (Hh : q / W < H) by (apply Nat.Div0.div_lt_upper_bound; lia).
  assert (Hw : q mod W < W) by (apply Nat.mod_upper_bound, HW).
  unfold pixel_norm_of. rewrite !(HD b _ _ _) by lia. reflexivity.
Qed.

Lemma binary_round_aux_opp prec emax m e l :
  binary_round_aux prec emax true m e l
  = SFopp (binary_round_aux prec emax false m e l).
Proof.
  unfold binary_round_aux.
  destruct (shr_fexp prec emax m e l) as [mrs' e'].
  destruct (shr_fexp prec emax _ e' loc_Exact) as [mrs'' e''].
  destruct (shr_m mrs''); [reflexivity| |reflexivity].
  destruct (Z.leb e'' (emax - prec)); reflexivity.
Qed.

Lemma binary_normalize_opp prec emax z e :
  binary_normalize prec emax (- z) e false = binary_normalize prec emax z e false
  \/ binary_normalize prec emax (- z) e false
     = SFopp (binary_normalize prec emax z e false).
Proof.
  destruct z as [|m|m];
    rewrite ?Pos2Z.opp_pos, ?Pos2Z.opp_neg; unfold binary_normalize.
  - left. reflexivity.
  - right. unfold binary_round. destruct (shl_align m e _) as [mz ez].
    apply binary_round_aux_opp.
  - right. unfold binary_round. destruct (shl_align m e _) as [mz ez].
    rewrite binary_round_aux_opp.
    destruct (binary_round_aux prec emax false (Z.pos mz) ez loc_Exact)
      as [[]|[]| |[] ? ?]; reflexivity.
Qed.

Lemma mul_opp_opp x : F32.mul (SFopp x) (SFopp x) = F32.mul x x.
Proof.
  destruct x as [[]|[]| |[] m e]; reflexivity.
Qed.

(** The square of a difference does not depend on the order of its terms. *)
Lemma sq_sub_comm x y :
  F32.mul (F32.sub x y) (F32.sub x y) = F32.mul (F32.sub y x) (F32.sub y x).
Proof.
  destruct x as [sx|sx| |sx mx ex], y as [sy|sy| |sy my ey];
    try reflexivity;
    try (destruct sx, sy; reflexivity);
    try (destruct sx; reflexivity);
    try (destruct sy; reflexivity).
  unfold F32.sub, SFsub. rewrite (Z.min_comm ey ex).
  set (a := cond_Zopp sx _). set (b := cond_Zopp sy _).
  replace (b - a)%Z with (- (a - b))%Z by lia.
  destruct (binary_normalize_opp F32.prec F32.emax (a - b) (Z.min ex ey))
    as [->| ->]; [reflexivity|].
  symmetry. apply mul_opp_opp.
Qed.

Lemma broadcast_rev_comm a : forall b, broadcast_rev a b = broadcast_rev b a.
Proof.
  induction a as [|x a IH]; intros [|y b]; try reflexivity.
  cbn [broadcast_rev]. rewrite IH, (Nat.eqb_sym y x).
  destruct (x =? y) eqn:E; [apply Nat.eqb_eq in E; subst; reflexivity|].
  destruct (x =? 1) eqn:Ex, (y =? 1) eqn:Ey; try reflexivity.
  apply Nat.eqb_eq in Ex, Ey. apply Nat.eqb_neq in E. lia.
Qed.

Lemma broadcast_shapes_comm a b : broadcast_shapes a b = broadcast_shapes b a.
Proof. unfold broadcast_shapes. rewrite broadcast_rev_comm. reflexivity. Qed.

(** X1.  The loss is symmetric: whenever the two shapes broadcast to
    [[B, 2, H, W]], exchanging prediction and ground truth gives the same
    value, bit for bit. *)
Theorem epe_symmetric pred_flow gt_flow B H W :
  broadcast_shapes (shape pred_flow) (shape gt_flow) = Some [B; 2; H; W] ->
  compute_epe_error pred_flow gt_flow = compute_epe_error gt_flow pred_flow.
Proof.
  intros Hb.
  rewrite (epe_of_broadcast _ _ B H W Hb).
  rewrite (epe_of_broadcast gt_flow pred_flow B H W)
    by (rewrite broadcast_shapes_comm; exact Hb).
  apply (f_equal (fun x => inr (scalar x))).
  apply epe_of_ext. intros b c h w _ _ _ _. unfold diff_at. apply sq_sub_comm.
Qed.

Lemma epe_symmetric_witness :
  broadcast_shapes (shape ex_pred) (shape ex_gt) = Some [1; 2; 2; 2] /\
  compute_epe_error ex_pred ex_gt = compute_epe_error ex_gt ex_pred.
Proof.
  split; [reflexivity|].
  apply (epe_symmetric ex_pred ex_gt 1 2 2). reflexivity.
Defined.

(** X2.  What [compute_epe_error] does is decided by the number of
    dimensions [r] the two shapes broadcast to: with [r < 4] the reductions
    over [dim=1] and [dim=(1, 2)] raise the dimension-out-of-range error;
    with [r >= 4] a tensor is returned whose shape is the dimensions past
    the fourth, so that the result is a scalar exactly when [r = 4]. *)
Theorem epe_outcome_by_rank pred_flow gt_flow s :
  broadcast_shapes (shape pred_flow) (shape gt_flow) = Some s ->
  (length s < 4 -> compute_epe_error pred_flow gt_flow = inl DimOutOfRange) /\
  (4 <= length s ->
   exists v, compute_epe_error pred_flow gt_flow = inr v /\ shape v = drop 4 s).
Proof.
  intros Hb. pose proof (epe_after_broadcast _ _ _ Hb) as H.
  destruct (4 <=? length s) eqn:E.
  - apply Nat.leb_le in E. split; [lia|]. intros _. exact H.
  - apply Nat.leb_gt in E. split; [intros _; exact H|lia].
Qed.

Lemma epe_outcome_by_rank_witness :
  compute_epe_error (full [480; 640] F32.zero) (full [480; 640] F32.zero)
    = inl DimOutOfRange /\
  exists v,
    compute_epe_error (full [3; 1; 2; 480; 640] F32.zero)
                      (full [2; 480; 640] F32.zero) = inr v /\
    shape v = [640].
Proof.
  split.
  - apply (epe_outcome_by_rank _ _ [480; 640]); [reflexivity|cbn; lia].
  - apply (epe_outcome_by_rank _ _ [3; 1; 2; 480; 640]); [reflexivity|cbn; lia].
Defined.

Lemma in_data_index t x :
  wf t -> In x (data t) ->
  exists idx, in_range idx (shape t) /\ get t idx = x.
Proof.
  intros Hwf Hin. apply (In_nth _ _ S754_nan) in Hin as (i & Hi & Hx).
  rewrite Hwf in Hi. exists (unravel (shape t) i).
  split; [apply unravel_in_range, Hi|].
  unfold get. rewrite ravel_unravel by exact Hi. exact Hx.
Qed.

Lemma add_nan_r x : F32.add x S754_nan = S754_nan.
Proof. destruct x as [[]|[]| |[] ? ?]; reflexivity. Qed.

Lemma sub_nan_r x : F32.sub x S754_nan = S754_nan.
Proof. destruct x as [[]|[]| |[] ? ?]; reflexivity. Qed.

Lemma pixel_error_nan p g b c h w :
  c < 2 ->
  get p [b; c; h; w] = S754_nan \/ get g [b; c; h; w] = S754_nan ->
  pixel_error p g b h w = S754_nan.
Proof.
  intros Hc Hnan. unfold pixel_error.
  assert (Hd : F32.sub (get p [b; c; h; w]) (get g [b; c; h; w]) = S754_nan)
    by (destruct Hnan as [-> | ->]; [reflexivity|apply sub_nan_r]).
  destruct c as [|[|c]]; [| |lia]; rewrite Hd; cbn [F32.mul SFmul].
  - reflexivity.
  - rewrite add_nan_r. reflexivity.
Qed.

(** X3.  One NaN poisons the loss: for tensors of equal shape
    [[B, 2, H, W]], if any element of the prediction or of the ground truth
    is NaN, the loss is NaN. *)
Theorem epe_nan_poisons pred_flow gt_flow B H W :
  shape pred_flow = [B; 2; H; W] ->
  shape gt_flow = [B; 2; H; W] ->
  (wf pred_flow /\ In S754_nan (data pred_flow)) \/
  (wf gt_flow /\ In S754_nan (data gt_flow)) ->
  compute_epe_error pred_flow gt_flow = inr (scalar S754_nan).
Proof.
  intros Hp Hg Hnan. rewrite (epe_pixelwise _ _ B H W Hp Hg).
  apply (f_equal (fun x => inr (scalar x))).
  assert (Hidx : exists idx, in_range idx [B; 2; H; W] /\
                   (get pred_flow idx = S754_nan \/ get gt_flow idx = S754_nan)).
  { destruct Hnan as [[Hwf Hin]|[Hwf Hin]];
      apply in_data_index in Hin as (idx & Hr & Hx); try exact Hwf;
      exists idx; [rewrite <- Hp|rewrite <- Hg]; auto. }
  destruct Hidx as (idx & Hr & Hx). unfold in_range in Hr.
  apply Forall2_cons_inv_r in Hr as (b & idx1 & Hb & Hr & ->).
  apply Forall2_cons_inv_r in Hr as (c & idx2 & Hc & Hr & ->).
  apply Forall2_cons_inv_r in Hr as (h & idx3 & Hh & Hr & ->).
  apply Forall2_cons_inv_r in Hr as (w & idx4 & Hw & Hr & ->).
  apply Forall2_nil_inv_r in Hr as ->.
  apply (epe_spec_nan _ _ _ _ _ b h w); try assumption.
  apply (pixel_error_nan _ _ _ c); assumption.
Qed.

Lemma epe_nan_poisons_witness :
  let pred_flow :=
    mkTensor [1; 2; 2; 2] (S754_nan :: repeat F32.zero 7) in
  compute_epe_error pred_flow ex_gt = inr (scalar S754_nan).
Proof.
  cbv zeta. apply (epe_nan_poisons _ _ 1 2 2); [reflexivity|reflexivity|].
  left. split; [reflexivity|]. left. reflexivity.
Defined.

(** X4.  An empty batch, or an empty image, is not an error: for equal
    shapes [[B, 2, H, W]] with [B], [H] or [W] zero, the means run over no
    element and the loss is NaN. *)
Theorem epe_empty_is_nan pred_flow gt_flow B H W :
  shape pred_flow = [B; 2; H; W] ->
  shape gt_flow = [B; 2; H; W] ->
  B * H * W = 0 ->
  compute_epe_error pred_flow gt_flow = inr (scalar S754_nan).
Proof.
  intros Hp Hg H0. rewrite (epe_pixelwise _ _ B H W Hp Hg).
  apply (f_equal (fun x => inr (scalar x))). unfold epe_spec.
  destruct B as [|B]; [reflexivity|].
  apply average_nan, in_map_iff. exists 0. split; [|apply in_seq; lia].
  unfold sample_error.
  rewrite <- (seq_rows (fun h w => pixel_error pred_flow gt_flow 0 h w)).
  replace (H * W) with 0 by nia. reflexivity.
Qed.

Lemma epe_empty_is_nan_witness :
  compute_epe_error (full (flow_shape 0) F32.zero) (full (flow_shape 0) F32.zero)
  = inr (scalar S754_nan).
Proof.
  apply (epe_empty_is_nan _ _ 0 480 640); reflexivity.
Defined.




(** * Further properties of the orchestrator *)

Section PhaseProperties.
Context `{C : Collaborators}.

Lemma bind_fail {A B} (m : M A) (k : A -> M B) w w' e :
  bind m k w = (w', inl e) ->
  m w = (w', inl e) \/ exists a w1, m w = (w1, inr a) /\ k a w1 = (w', inl e).
Proof.
  unfold bind. destruct (m w) as [w1 [e1|a]]; [intros [= -> ->]; auto|].
  intros H. right. eauto.
Qed.

Lemma bind_step {A B} (m : M A) (k : A -> M B) w w1 a :
  m w = (w1, inr a) -> bind m k w = k a w1.
Proof. unfold bind. intros ->. reflexivity. Qed.

Lemma foldM_fail {A S} (f : S -> A -> M S) l : forall s w w' e,
  foldM f l s w = (w', inl e) ->
  exists s0 a w0, In a l /\ f s0 a w0 = (w', inl e).
Proof.
  induction l as [|a l IH]; intros s w w' e H; [discriminate|].
  cbn [foldM] in H. apply bind_fail in H as [H|(s1 & w1 & _ & H)].
  - exists s, a, w. split; [left; reflexivity|exact H].
  - apply IH in H as (s0 & a0 & w0 & Hin & H).
    exists s0, a0, w0. split; [right; exact Hin|exact H].
Qed.

Lemma foldM_total {A S} (f : S -> A -> M S) l :
  (forall s a w, In a l -> exists w' s', f s a w = (w', inr s')) ->
  forall s w, exists w' s', foldM f l s w = (w', inr s').
Proof.
  induction l as [|a l IH]; intros Hf s w; [cbn; eauto|].
  cbn [foldM]. destruct (Hf s a w (or_introl eq_refl)) as (w1 & s1 & H1).
  unfold bind. rewrite H1. apply IH. intros s0 a0 w0 Hin.
  apply Hf. right. exact Hin.
Qed.

Lemma main_phases args w :
  main args w
  = bind (train_phase args) (fun r => predict_phase (fst r) (snd r)) w.
Proof.
  unfold main, train_phase, predict_phase, bind, lift, ret, set_globals.
  destruct (make_train_loader args); [reflexivity|].
  destruct (make_test_loader args); [reflexivity|].
  destruct (new_model _ _) as [w1 [e|model]]; [reflexivity|].
  destruct (training_loop _ _ _ _) as [w2 [e|[model' optimizer]]]; reflexivity.
Qed.



Lemma train_phase_frame args w : same_files w (fst (train_phase args w)).
Proof.
  unfold train_phase.
  apply bind_frame; [repeat split|]. intros [] w0.
  apply bind_frame; [apply lift_frame|]. intros train_data w1.
  apply bind_frame; [apply lift_frame|]. intros test_data w2.
  apply bind_frame; [apply new_model_frame|]. intros model w3.
  apply bind_frame; [apply training_loop_frame|]. intros st w4.
  apply ret_frame.
Qed.

(** *** Which exceptions a phase can raise *)

Lemma compute_epe_error_raises p g e :
  compute_epe_error p g = inl e -> e = ShapeMismatch \/ e = DimOutOfRange.
Proof.
  intros H.
  destruct (broadcast_shapes (shape p) (shape g)) as [s|] eqn:E.
  - pose proof (epe_after_broadcast _ _ _ E) as H'.
    destruct (4 <=? length s); [destruct H' as (v & Hv & _)|]; right; congruence.
  - rewrite (epe_not_broadcastable _ _ E) in H. left. congruence.
Qed.

Lemma train_batch_raises st ib w w' e :
  train_batch st ib w = (w', inl e) -> training_error e.
Proof.
  destruct st as [[model optimizer] total_loss], ib as [i batch].
  unfold train_batch, training_error.
  destruct (forward _ model _) as [flow flow_dict]. intros H.
  apply bind_fail in H as [H|(loss & w1 & _ & H)].
  { unfold lift in H. injection H as _ H.
    apply compute_epe_error_raises in H as [->| ->]; auto. }
  apply bind_fail in H as [H|(v & w2 & _ & H)].
  { unfold lift, item in H. injection H as _ H.
    destruct (data loss) as [|x [|? ?]]; try discriminate;
      injection H as <-; auto. }
  apply bind_fail in H as [H|([] & w3 & _ & H)]; [discriminate|].
  destruct (optimizer_step _ _ _). discriminate.
Qed.

Lemma train_epoch_raises l st epoch w w' e :
  train_epoch l st epoch w = (w', inl e) -> training_error e.
Proof.
  destruct st as [model optimizer]. unfold train_epoch. intros H.
  apply bind_fail in H as [H|([] & w1 & _ & H)]; [discriminate|].
  apply bind_fail in H as [H|(batches & w2 & _ & H)].
  { unfold iter_loader in H. destruct (sampler _ _). discriminate. }
  apply bind_fail in H as [H|([[model' optimizer'] total_loss] & w3 & _ & H)].
  { apply foldM_fail in H as (s0 & a & w0 & _ & H).
    eapply train_batch_raises, H. }
  apply bind_fail in H as [H|(mean & w4 & _ & H)].
  { unfold lift, py_truediv in H. destruct (loader_len l); [|discriminate].
    injection H as _ <-. unfold training_error. auto. }
  apply bind_fail in H as [H|([] & w5 & _ & H)]; discriminate.
Qed.

Lemma train_phase_raises args w w' e :
  train_phase args w = (w', inl e) -> e = ValueError \/ training_error e.
Proof.
  unfold train_phase. intros H.
  apply bind_fail in H as [H|([] & w0 & _ & H)]; [discriminate|].
  apply bind_fail in H as [H|(train_data & w1 & _ & H)].
  { unfold lift, make_train_loader, new_loader in H.
    destruct (_ =? 0); [|discriminate]. injection H as _ <-. auto. }
  apply bind_fail in H as [H|(test_data & w2 & _ & H)].
  { unfold lift, make_test_loader, new_loader in H.
    destruct (_ =? 0); [|discriminate]. injection H as _ <-. auto. }
  apply bind_fail in H as [H|(model & w3 & _ & H)].
  { unfold new_model in H. destruct (EVFlowNet _ _). discriminate. }
  apply bind_fail in H as [H|(st & w4 & _ & H)]; [|discriminate].
  right. apply foldM_fail in H as (s0 & a & w0' & _ & H).
  eapply train_epoch_raises, H.
Qed.

Lemma cat_all_raises preds : forall flow e,
  cat_all flow preds = inl e -> e = CatMismatch.
Proof.
  induction preds as [|p preds IH]; intros flow e H; [discriminate|].
  cbn [cat_all] in H. destruct (torch_cat0 flow p) as [e'|flow'] eqn:E.
  - cbn in H. injection H as <-. unfold torch_cat0 in E.
    destruct (shape flow), (shape p); try (injection E as <-; reflexivity).
    destruct (is_legacy_empty flow); [discriminate|].
    destruct (is_legacy_empty p); [discriminate|].
    destruct (shape_eqb _ _); [discriminate|]. injection E as <-. reflexivity.
  - cbn in H. eapply IH, H.
Qed.

Lemma inference_raises model l w w' e :
  inference model l w = (w', inl e) -> e = CatMismatch.
Proof.
  intros H. pose proof (inference_result model l w) as Hr.
  rewrite H in Hr. cbn [snd] in Hr. symmetry in Hr.
  eapply cat_all_raises, Hr.
Qed.

Lemma save_checkpoint_total model w :
  exists w3,
    save_checkpoint model w
      = (w3, inr ("checkpoints/model_" +:+ clock w +:+ ".pth")) /\
    cwd w3 = cwd w /\ clock w3 = clock w /\ arrays w3 = arrays w /\
    globals w3 = globals w /\
    dirs w3 = {[checkpoint_dir w]} ∪ dirs w /\
    checkpoints w3 = <[checkpoint_file w := model]> (checkpoints w) /\
    stdout w3
      = stdout w ++ [ModelSaved ("checkpoints/model_" +:+ clock w +:+ ".pth")].
Proof.
  unfold save_checkpoint, bind, ensure_dir, strftime, torch_save, print, ret.
  cbn. eexists. split; [reflexivity|]. cbn.
  repeat (split; [reflexivity|]). split; [|split; reflexivity].
  unfold checkpoint_dir.
  match goal with |- context [bool_decide ?P] =>
    destruct (bool_decide_reflect P) as [Hin|Hout] end; [|reflexivity].
  symmetry. apply subseteq_union_1_L, singleton_subseteq_l, Hin.
Qed.

Lemma predict_phase_fail model test_data w w' e :
  predict_phase model test_data w = (w', inl e) ->
  prediction_error e /\
  arrays w' = arrays w /\
  checkpoints w' = <[checkpoint_file w := model]> (checkpoints w).
Proof.
  unfold predict_phase, prediction_error. intros H.
  destruct (save_checkpoint_total model w)
    as (w3 & Hsave & _ & _ & Harr & _ & _ & Hck & _).
  rewrite (bind_step _ _ _ _ _ Hsave) in H.
  apply bind_fail in H as [H|(state & w3' & Hload & H)].
  { unfold torch_load in H. destruct (checkpoints w3 !! _); [discriminate|].
    injection H as <- <-. auto. }
  assert (w3' = w3) as ->.
  { unfold torch_load in Hload.
    destruct (checkpoints w3 !! _); [|discriminate].
    injection Hload as <- _. reflexivity. }
  apply bind_fail in H as [H|(model' & w4 & [_ ->]%lift_ok & H)].
  { unfold lift, load_state_dict in H.
    destruct (state_compatible _ _); [discriminate|].
    injection H as <- <-. auto. }
  apply bind_fail in H as [H|(flow & w5 & _ & H)].
  { pose proof (inference_frame model' test_data w3) as (_ & _ & _ & Hc & Ha).
    rewrite H in Hc, Ha. cbn [fst] in Hc, Ha.
    apply inference_raises in H as ->.
    split; [auto|]. split; congruence. }
  apply bind_fail in H as [H|([] & w6 & _ & H)]; discriminate.
Qed.
End PhaseProperties.

Section RunProperties.
Context `{C : Collaborators}.

Lemma train_epoch_lines l st epoch w w' st' :
  train_epoch l st epoch w = (w', inr st') ->
  exists losses,
    length losses = length (yielded l w) /\
    stdout w' = stdout w ++ epoch_lines l epoch losses.
Proof.
  intros H. apply train_epoch_log in H as (losses & mean & Hlen & Hmean & Hout).
  apply epoch_mean_ok in Hmean. subst mean.
  exists losses. split; [exact Hlen|]. exact Hout.
Qed.


Lemma inference_effects model l w w' r :
  inference model l w = (w', r) ->
  same_files w w' /\
  (shuffle l = false -> globals w' = globals w) /\
  stdout w' = stdout w ++ StartTest :: (if is_ok r then [TestDone] else []).
Proof.
  intros H. split; [|split].
  - pose proof (inference_frame model l w) as Hf. rewrite H in Hf. exact Hf.
  - intros Hs. revert H. unfold inference, bind, print, iter_loader, sampler.
    rewrite Hs. cbn [globals]. unfold inference_loop.
    rewrite inference_loop_pure.
    destruct (cat_all _ _); intros [= <- _]; cbn; destruct (globals w);
      reflexivity.
  - revert H. unfold inference, bind, print, iter_loader. cbn [globals].
    destruct (sampler l _) as [order g']. unfold inference_loop.
    rewrite inference_loop_pure.
    destruct (cat_all _ _); intros [= <- <-]; cbn.
    + reflexivity.
    + rewrite <- app_assoc. reflexivity.
Qed.

Lemma predict_phase_ok model test_data w w' locals :
  predict_phase model test_data w = (w', inr locals) ->
  trained locals = model /\
  saved_path locals = "checkpoints/model_" +:+ clock w +:+ ".pth" /\
  cwd w' = cwd w /\ clock w' = clock w /\
  dirs w' = {[checkpoint_dir w]} ∪ dirs w /\
  arrays w' = <[submission_file := submission locals]> (arrays w) /\
  stdout w' = stdout w ++ [ModelSaved (saved_path locals); StartTest; TestDone].
Proof.
  unfold predict_phase. intros H.
  destruct (save_checkpoint_total model w)
    as (w3 & Hsave & Hcwd & Hclock & Harr & _ & Hdirs & _ & Hout).
  rewrite (bind_step _ _ _ _ _ Hsave) in H.
  apply bind_ok in H as (state & w3' & Hload & H).
  assert (w3' = w3) as ->.
  { unfold torch_load in Hload.
    destruct (checkpoints w3 !! _); [|discriminate].
    injection Hload as <- _. reflexivity. }
  apply bind_ok in H as (model' & ? & [_ ->]%lift_ok & H).
  apply bind_ok in H as (flow & w4 & Hinf & H).
  apply inference_effects in Hinf as ((Hc4 & Hk4 & Hd4 & _ & Ha4) & _ & Hout4).
  apply bind_ok in H as ([] & w5 & Hnpy & H).
  apply ret_ok in H as [-> ->].
  unfold save_optical_flow_to_npy in Hnpy. injection Hnpy as <-.
  cbn [trained saved_path submission cwd clock dirs arrays stdout is_ok] in *.
  rewrite resolve_submission.
  split; [reflexivity|]. split; [reflexivity|].
  split; [congruence|]. split; [congruence|]. split; [congruence|].
  split; [congruence|].
  rewrite Hout4, Hout, <- app_assoc. reflexivity.
Qed.

Lemma main_ok_phases args w w' locals :
  main args w = (w', inr locals) ->
  exists test_data w2,
    train_phase args w = (w2, inr (trained locals, test_data)) /\
    predict_phase (trained locals) test_data w2 = (w', inr locals).
Proof.
  rewrite main_phases. intros H.
  apply bind_ok in H as ([model test_data] & w2 & Ht & Hp). cbn [fst snd] in Hp.
  pose proof (predict_phase_ok _ _ _ _ _ Hp) as (<- & _).
  exists test_data, w2. auto.
Qed.
End RunProperties.

(** X6.  The exception of a failed run tells how far it went.  A run that
    raises the value error of a loader, or an exception of the epoch loop
    (shape mismatch, dimension out of range, scalar conversion, division by
    zero), has written no file at all; a run that raises the file-not-found,
    state-mismatch or concatenation error has written its checkpoint.  In
    no failed run is a submission array written. *)
Theorem failed_run_files `{C : Collaborators} args w w' e :
  main args w = (w', inl e) ->
  arrays w' = arrays w /\
  (((e = ValueError \/ training_error e) /\
    checkpoints w' = checkpoints w /\ dirs w' = dirs w)
   \/
   (prediction_error e /\
    exists model,
      checkpoints w' = <[checkpoint_file w := model]> (checkpoints w))).
Proof.
  rewrite main_phases. intros H.
  apply bind_fail in H as [H|([model test_data] & w2 & Ht & Hp)].
  - pose proof (train_phase_frame args w) as (_ & _ & Hd & Hc & Ha).
    rewrite H in Hd, Hc, Ha. cbn [fst] in *.
    split; [congruence|]. left.
    split; [eapply train_phase_raises, H|]. split; congruence.
  - cbn [fst snd] in Hp.
    pose proof (train_phase_frame args w) as (Hcwd & Hclock & _ & Hc & Ha).
    rewrite Ht in Hcwd, Hclock, Hc, Ha. cbn [fst] in *.
    apply predict_phase_fail in Hp as (He & Harr & Hck).
    split; [congruence|]. right. split; [exact He|].
    exists model. rewrite Hck. unfold checkpoint_file.
    rewrite <- Hcwd, <- Hclock, <- Hc. reflexivity.
Qed.

Lemma failed_run_files_witness :
  let w := toy_world 1 1 0 5 0 in
  exists w' e,
    main (C := toy 1 1 0 5) (toy_args false 2) w = (w', inl e) /\
    arrays w' = arrays w.
Proof.
  cbv zeta.
  destruct (main (C := toy 1 1 0 5) (toy_args false 2) (toy_world 1 1 0 5 0))
    as [w' [e|locals]] eqn:E.
  - exists w', e. split; [reflexivity|].
    exact (proj1 (failed_run_files (C := toy 1 1 0 5) _ _ _ _ E)).
  - assert (H : is_ok (snd (main (C := toy 1 1 0 5) (toy_args false 2)
                              (toy_world 1 1 0 5 0))) = false)
      by (vm_compute; reflexivity).
    rewrite E in H. discriminate H.
Defined.

(** X7.  When training completes but no file lies at the fixed reload path
    (and the checkpoint of this run is another file), the run saves its
    checkpoint, prints where, and then raises the file-not-found error: the
    trained parameters are on disk, no submission is. *)
Theorem missing_reload_file_aborts `{C : Collaborators}
    args w w2 model test_data :
  train_phase args w = (w2, inr (model, test_data)) ->
  checkpoints w !! load_path = None ->
  checkpoint_file w <> load_path ->
  exists w3,
    main args w = (w3, inl FileNotFoundError) /\
    checkpoints w3 !! checkpoint_file w = Some model /\
    arrays w3 = arrays w /\
    stdout w3
      = stdout w2 ++ [ModelSaved ("checkpoints/model_" +:+ clock w +:+ ".pth")].
Proof.
  intros Ht Hnone Hne.
  pose proof (train_phase_frame args w) as (Hcwd & Hclock & _ & Hc & Ha).
  rewrite Ht in Hcwd, Hclock, Hc, Ha. cbn [fst] in *.
  destruct (save_checkpoint_total model w2)
    as (w3 & Hsave & Hcwd3 & _ & Harr & _ & _ & Hck & Hout).
  assert (Hfile : checkpoint_file w2 = checkpoint_file w)
    by (unfold checkpoint_file; rewrite <- Hcwd, <- Hclock; reflexivity).
  rewrite Hfile, <- Hc in Hck. rewrite <- Hclock in Hout.
  exists w3. rewrite main_phases, (bind_step _ _ _ _ _ Ht). cbn [fst snd].
  split; [|split; [|split]].
  - unfold predict_phase. rewrite (bind_step _ _ _ _ _ Hsave).
    unfold bind, torch_load. rewrite resolve_load_path, Hck.
    rewrite lookup_insert_ne, Hnone by exact Hne. reflexivity.
  - rewrite Hck. apply lookup_insert_eq.
  - congruence.
  - exact Hout.
Qed.

Lemma missing_reload_file_aborts_witness :
  let w := toy_world_fresh 1 1 3 5 0 in
  exists w3,
    main (C := toy 1 1 3 5) (toy_args false 2) w = (w3, inl FileNotFoundError) /\
    arrays w3 = arrays w.
Proof.
  cbv zeta.
  destruct (train_phase (C := toy 1 1 3 5) (toy_args false 2)
              (toy_world_fresh 1 1 3 5 0)) as [w2 [e|[model test_data]]] eqn:E.
  - assert (H : is_ok (snd (train_phase (C := toy 1 1 3 5) (toy_args false 2)
                              (toy_world_fresh 1 1 3 5 0))) = true)
      by (vm_compute; reflexivity).
    rewrite E in H. discriminate H.
  - destruct (missing_reload_file_aborts (C := toy 1 1 3 5) _ _ _ _ _ E)
      as (w3 & Hmain & _ & Harr & _).
    + reflexivity.
    + vm_compute. discriminate.
    + exists w3. split; [exact Hmain|exact Harr].
Defined.



(** X9.  A completed run writes the submission once, at
    [submission_name + ".npy"], replacing what was there and touching no
    other array file; it creates the [checkpoints] directory next to the
    working directory when it is missing and no other directory; the
    working directory does not change. *)
Theorem run_files `{C : Collaborators} args w w' locals :
  main args w = (w', inr locals) ->
  arrays w' = <[submission_file := submission locals]> (arrays w) /\
  (forall p, p <> submission_file -> arrays w' !! p = arrays w !! p) /\
  dirs w' = {[checkpoint_dir w]} ∪ dirs w /\
  cwd w' = cwd w.
Proof.
  intros H. apply main_ok_phases in H as (test_data & w2 & Ht & Hp).
  pose proof (train_phase_frame args w) as (Hcwd & _ & Hd & _ & Ha).
  rewrite Ht in Hcwd, Hd, Ha. cbn [fst] in *.
  apply predict_phase_ok in Hp as (_ & _ & Hcwd' & _ & Hdirs & Harr & _).
  assert (Hfinal : arrays w' = <[submission_file := submission locals]> (arrays w))
    by congruence.
  split; [exact Hfinal|]. split; [|split].
  - intros p Hp. rewrite Hfinal. apply lookup_insert_ne. congruence.
  - rewrite Hdirs. unfold checkpoint_dir. rewrite <- Hcwd, <- Hd. reflexivity.
  - congruence.
Qed.

Lemma run_files_witness :
  let w := toy_world 1 1 3 5 0 in
  exists w' locals,
    main (C := toy 1 1 3 5) (toy_args false 2) w = (w', inr locals) /\
    arrays w' = <[submission_file := submission locals]> (arrays w) /\
    dirs w' = {[checkpoint_dir w]} ∪ dirs w.
Proof.
  cbv zeta.
  destruct (main (C := toy 1 1 3 5) (toy_args false 2) (toy_world 1 1 3 5 0))
    as [w' [e|locals]] eqn:E.
  - assert (H : is_ok (snd (main (C := toy 1 1 3 5) (toy_args false 2)
                              (toy_world 1 1 3 5 0))) = true)
      by (vm_compute; reflexivity).
    rewrite E in H. discriminate H.
  - destruct (run_files (C := toy 1 1 3 5) _ _ _ _ E) as (H1 & _ & H3 & _).
    exists w', locals. split; [reflexivity|]. split; [exact H1|exact H3].
Defined.





(** * Further properties of the loaders *)

Lemma chunks_fuel_nil {A} fuel bs : chunks_fuel fuel bs (@nil A) = [].
Proof. destruct fuel; reflexivity. Qed.

Lemma chunks_fuel_sizes {A} bs : 0 < bs -> forall fuel (l : list A),
  length l <= fuel ->
  Forall (fun c => 0 < length c <= bs) (chunks_fuel fuel bs l) /\
  (forall i c, chunks_fuel fuel bs l !! i = Some c ->
               S i < length (chunks_fuel fuel bs l) -> length c = bs).
Proof.
  intros Hbs. induction fuel as [|fuel IH]; intros l Hl.
  - destruct l; [|cbn in Hl; lia]. rewrite chunks_fuel_nil.
    split; [constructor|].
    intros i c Hc. rewrite lookup_nil in Hc. discriminate.
  - destruct l as [|a l].
    { rewrite chunks_fuel_nil. split; [constructor|].
      intros i c Hc. rewrite lookup_nil in Hc. discriminate. }
    cbn [chunks_fuel].
    destruct (IH (drop bs (a :: l))) as [IH1 IH2];
      [rewrite length_drop; cbn in *; lia|].
    split.
    + constructor; [|exact IH1]. rewrite length_take. cbn [length]. lia.
    + intros [|i] c Hc Hi; cbn in Hc.
      * injection Hc as <-. rewrite length_take.
        destruct (Nat.le_gt_cases (length (a :: l)) bs) as [Hle|Hgt]; [|lia].
        rewrite (drop_ge (a :: l) bs Hle), chunks_fuel_nil in Hi.
        cbn in Hi. lia.
      * apply (IH2 i c Hc). cbn [length] in Hi. lia.
Qed.

(** X12.  Batching with [drop_last=False]: the batches of a pass, put end to
    end, are the samples visited, in order; no batch is empty and none
    exceeds the batch size; every batch but the last has exactly the batch
    size; there are [len(loader)] of them when each sample is visited
    once. *)
Theorem loader_batches `{C : Collaborators} (l : DataLoader Sample) w :
  0 < batch_size l ->
  let groups := chunks (batch_size l) (visited l w) in
  yielded l w = map train_collate groups /\
  concat groups = visited l w /\
  Forall (fun g => 0 < length g <= batch_size l) groups /\
  (forall i g, groups !! i = Some g -> S i < length groups ->
               length g = batch_size l) /\
  (length (visited l w) = length (dataset l) -> length groups = loader_len l).
Proof.
  intros Hbs. cbv zeta.
  destruct (chunks_fuel_sizes (batch_size l) Hbs (length (visited l w))
              (visited l w) (le_n _)) as [H1 H2].
  split; [reflexivity|]. split; [apply chunks_concat, Hbs|].
  split; [exact H1|]. split; [exact H2|].
  intros Hv. rewrite chunks_length by exact Hbs. unfold loader_len.
  rewrite Hv. reflexivity.
Qed.

Lemma loader_batches_witness :
  let l := mkLoader [0; 1; 2; 3; 4] 2 true in
  let w := toy_world 1 1 3 5 0 in
  let groups := chunks 2 (visited (C := toy 1 1 3 5) l w) in
  0 < batch_size l /\
  concat groups = visited (C := toy 1 1 3 5) l w /\
  Forall (fun g => 0 < length g <= 2) groups /\
  map (@length nat) groups = [2; 2; 1].
Proof.
  cbv zeta. split; [cbn; lia|].
  destruct (loader_batches (C := toy 1 1 3 5) (mkLoader [0; 1; 2; 3; 4] 2 true)
              (toy_world 1 1 3 5 0)) as (_ & H2 & H3 & _); [cbn; lia|].
  split; [exact H2|]. split; [exact H3|]. reflexivity.
Defined.

(** X13.  When the sampler's random permutation is a permutation of the
    indices, a shuffled pass still visits every sample of the dataset
    exactly once, and yields [len(loader)] batches: the divisor of the epoch
    mean is the number of batches also under shuffling. *)
Theorem shuffled_pass_is_permutation `{C : Collaborators}
    (l : DataLoader Sample) w :
  (forall g n, fst (randperm g n) ≡ₚ seq 0 n) ->
  visited l w ≡ₚ dataset l /\
  (0 < batch_size l -> length (yielded l w) = loader_len l).
Proof.
  intros Hperm.
  assert (Hv : visited l w ≡ₚ dataset l).
  { unfold visited, sampler, fetch. destruct (shuffle l); cbn [fst].
    - rewrite Hperm. rewrite lookup_all_seq. reflexivity.
    - rewrite lookup_all_seq. reflexivity. }
  split; [exact Hv|]. intros Hbs.
  apply yielded_length; [exact Hbs|]. apply Permutation_length, Hv.
Qed.

Lemma shuffled_pass_is_permutation_witness :
  let l := mkLoader [0; 1; 2; 3; 4] 2 true in
  let w := toy_world 1 1 3 5 0 in
  visited (C := toy 1 1 3 5) l w ≡ₚ [0; 1; 2; 3; 4] /\
  (0 < 2 -> length (yielded (C := toy 1 1 3 5) l w) = 3).
Proof.
  cbv zeta.
  apply (shuffled_pass_is_permutation (C := toy 1 1 3 5)
           (mkLoader [0; 1; 2; 3; 4] 2 true) (toy_world 1 1 3 5 0)).
  intros g n. cbn. symmetry. apply Permutation_rev.
Defined.

(** * Further properties of the epoch loop *)

Lemma fold_f64_add_nan xs : fold_left F64.add xs S754_nan = S754_nan.
Proof. induction xs as [|x xs IH]; [reflexivity|exact IH]. Qed.

Lemma mean_of_losses_nan losses n :
  In S754_nan losses -> mean_of_losses losses n = S754_nan.
Proof.
  intros Hin. unfold mean_of_losses.
  assert (Hs : forall acc, fold_left F64.add losses acc = S754_nan).
  { induction losses as [|x losses IH]; [destruct Hin|]. intros acc.
    destruct Hin as [->|Hin]; cbn [fold_left].
    - replace (F64.add acc S754_nan) with S754_nan
        by (destruct acc as [[]|[]| |[] ? ?]; reflexivity).
      apply fold_f64_add_nan.
    - apply IH, Hin. }
  rewrite Hs. reflexivity.
Qed.

(** X14.  An epoch completes, without raising, whenever the training set is
    not empty and, for every batch of the pass and whatever the parameters,
    the prediction and the ground truth have the same shape
    [[n, 2, H, W]]: the loss is then a scalar, its conversion to a Python
    float succeeds and the divisor of the mean is not zero. *)
Theorem epoch_completes `{C : Collaborators}
    (l : DataLoader Sample) st epoch w :
  0 < batch_size l ->
  dataset l <> [] ->
  (forall model b, In b (yielded l w) ->
     exists n H W,
       shape (fst (forward training model (event_volume b))) = [n; 2; H; W] /\
       shape (flow_gt b) = [n; 2; H; W]) ->
  exists w' st', train_epoch l st epoch w = (w', inr st').
Proof.
  intros Hbs Hne Hshape. destruct st as [model optimizer]. unfold train_epoch.
  unfold bind at 1. cbn [print].
  unfold bind at 1.
  match goal with |- context [iter_loader _ ?w0] =>
    destruct (iter_loader_ok l w0) as [Hit _]; rewrite Hit;
    change (yielded l w0) with (yielded l w);
    generalize (fst (iter_loader l w0)) end.
  intros w1.
  destruct (foldM_total train_batch (enumerate (yielded l w)))
    with (s := (model, optimizer, PyInt 0)) (w := w1) as (w2 & st2 & Hfold).
  { intros [[model1 optimizer1] total_loss] [i b] w0 Hin.
    assert (Hb : In b (yielded l w))
      by (apply list_elem_of_In; apply list_elem_of_In in Hin;
          eapply elem_of_zip_r, Hin).
    destruct (Hshape model1 b Hb) as (n & H & W & Hp & Hg).
    unfold train_batch.
    destruct (forward training model1 (event_volume b)) as [flow flow_dict].
    cbn [fst] in Hp.
    unfold bind at 1. unfold lift at 1.
    rewrite (epe_pixelwise _ _ n H W Hp Hg).
    unfold bind, lift, item, print, ret. cbn [data scalar].
    destruct (optimizer_step _ _ _). eauto. }
  unfold bind at 1. rewrite Hfold. destruct st2 as [[model2 optimizer2] total].
  unfold bind at 1, lift, py_truediv.
  destruct (loader_len l) eqn:E.
  - apply loader_len_zero in E; [contradiction|exact Hbs].
  - unfold bind, print, ret. eauto.
Qed.

Lemma epoch_completes_witness :
  let l := mkLoader [0; 1; 2] 2 false in
  exists w' st',
    train_epoch (C := toy 1 1 3 5) l (0, tt) 0 (toy_world 1 1 3 5 0)
    = (w', inr st').
Proof.
  cbv zeta.
  apply (epoch_completes (C := toy 1 1 3 5)); [cbn; lia|discriminate|].
  intros model b Hb. cbn in Hb.
  destruct Hb as [<-|[<-|[]]].
  - exists 2, 1, 1. split; reflexivity.
  - exists 1, 1, 1. split; reflexivity.
Defined.

(** X15.  One NaN batch loss poisons the report of its epoch: when an epoch
    completes and one of the per-batch losses it printed is NaN, the epoch
    mean it prints is NaN. *)
Theorem nan_batch_loss_poisons_report `{C : Collaborators}
    (l : DataLoader Sample) st epoch w w' st' :
  train_epoch l st epoch w = (w', inr st') ->
  exists losses,
    stdout w' = stdout w ++ epoch_lines l epoch losses /\
    (In S754_nan losses ->
     epoch_lines l epoch losses
     = OnEpoch (epoch + 1)
       :: zip_with BatchLoss (seq 0 (length losses)) losses
       ++ [EpochLoss (epoch + 1) S754_nan]).
Proof.
  intros H. apply train_epoch_lines in H as (losses & _ & Hout).
  exists losses. split; [exact Hout|].
  intros Hin. unfold epoch_lines. rewrite mean_of_losses_nan by exact Hin.
  reflexivity.
Qed.

Lemma nan_batch_loss_poisons_report_witness :
  let l := mkLoader [0; 1; 2] 2 false in
  let w := toy_world 1 1 3 5 0 in
  exists w' st' losses,
    train_epoch (C := toy 1 1 3 5) l (0, tt) 0 w = (w', inr st') /\
    stdout w' = stdout w ++ epoch_lines l 0 losses.
Proof.
  cbv zeta.
  destruct (train_epoch (C := toy 1 1 3 5) (mkLoader [0; 1; 2] 2 false)
              (0, tt) 0 (toy_world 1 1 3 5 0)) as [w' [e|st']] eqn:E.
  - assert (H : is_ok (snd (train_epoch (C := toy 1 1 3 5)
                              (mkLoader [0; 1; 2] 2 false) (0, tt) 0
                              (toy_world 1 1 3 5 0))) = true)
      by (vm_compute; reflexivity).
    rewrite E in H. discriminate H.
  - destruct (nan_batch_loss_poisons_report (C := toy 1 1 3 5) _ _ _ _ _ _ E)
      as (losses & Hout & _).
    exists w', st', losses. split; [reflexivity|exact Hout].
Defined.

(** * Further properties of the file paths *)

Lemma string_length_app (a b : string) :
  String.length (a +:+ b) = String.length a + String.length b.
Proof.
  induction a as [|x a IH]; [reflexivity|].
  change (S (String.length (a +:+ b)) = S (String.length a + String.length b)).
  rewrite IH. reflexivity.
Qed.

Lemma string_app_inj_suffix (a c b d : string) :
  a +:+ b = c +:+ d -> String.length b = String.length d -> a = c /\ b = d.
Proof.
  revert c. induction a as [|x a IH]; intros [|y c] H Hl.
  - split; [reflexivity|exact H].
  - exfalso. change (b = String y (c +:+ d)) in H. rewrite H in Hl.
    change (S (String.length (c +:+ d)) = String.length d) in Hl.
    rewrite string_length_app in Hl. lia.
  - exfalso. change (String x (a +:+ b) = d) in H. rewrite <- H in Hl.
    change (String.length b = S (String.length (a +:+ b))) in Hl.
    rewrite string_length_app in Hl. lia.
  - change (String x (a +:+ b) = String y (c +:+ d)) in H.
    injection H as -> H. destruct (IH c H Hl) as [-> ->]. auto.
Qed.

(** X16.  The path of the checkpoint a run writes is the path it reloads
    from exactly when the run is started in
    [/content/dl_lecture_competition_pub] at the second [20240717034219]
    (the clock prints the 14 digits of [%Y%m%d%H%M%S]). *)
Theorem own_checkpoint_reloaded_iff `{C : Collaborators} (w : World) :
  String.length (clock w) = 14 ->
  (checkpoint_file w = load_path <->
   cwd w = "/content/dl_lecture_competition_pub" /\
   clock w = "20240717034219").
Proof.
  intros Hlen. unfold checkpoint_file, resolve, load_path. cbn [is_absolute].
  split.
  - intros H.
    change "/content/dl_lecture_competition_pub/checkpoints/model_20240717034219.pth"
      with ("/content/dl_lecture_competition_pub"
            +:+ "/" +:+ "checkpoints/model_" +:+ "20240717034219" +:+ ".pth") in H.
    apply (string_app_inj_suffix (cwd w) "/content/dl_lecture_competition_pub")
      in H as [Hcwd Hrest].
    + split; [exact Hcwd|].
      apply (string_app_inj_suffix "/checkpoints/model_" "/checkpoints/model_"
               (clock w +:+ ".pth") ("20240717034219" +:+ ".pth"))
        in Hrest as [_ Hrest].
      * apply (string_app_inj_suffix (clock w) "20240717034219" ".pth" ".pth")
          in Hrest as [Hclock _]; [exact Hclock|reflexivity].
      * rewrite !string_length_app, Hlen. reflexivity.
    + change (String.length ("/checkpoints/model_" +:+ clock w +:+ ".pth")
              = 37).
      rewrite !string_length_app, Hlen. reflexivity.
  - intros [-> ->]. reflexivity.
Qed.

Lemma own_checkpoint_reloaded_iff_witness :
  let w := toy_world 1 1 3 5 0 in
  String.length (clock w) = 14 /\ checkpoint_file w <> load_path.
Proof.
  cbv zeta. split; [reflexivity|].
  intros H.
  apply (own_checkpoint_reloaded_iff (C := toy 1 1 3 5)
           (toy_world 1 1 3 5 0) eq_refl) in H as [_ H].
  discriminate H.
Defined.
